(** * Human-Typer: the typing-cadence engine of [human_typer.py]

    A shallow embedding of [GlobalTypingSimulator] (its [start], [stop],
    [_run], [_type_char], [_choose_typo_char], [_schedule_status] and
    [_on_finished] methods) and of the [start_typing] button handler of
    [build_gui], together with the properties the specification states
    about them.

    Conventions of the embedding.
    - Text is a [string]; [split], [strip] and [rstrip] follow Python's
      [str] methods.  The methods that depend on the Unicode tables
      ([isspace], [isalpha], [lower], [swapcase]) belong to the Python
      runtime, not to the program: they are gathered in the record [StrOps]
      and every general statement holds for any such record.  [ascii_ops]
      gives them on the ASCII code points and serves the concrete scenarios.
    - Durations are exact rationals ([Q]); [time.sleep d] is the event
      [Sleep p d], where [p] names the call site.
    - Everything [_run] obtains from outside is an oracle of a [World]: the
      answers of [_stop_event.is_set()], the values of [random.random()],
      the indices picked by [random.choice], and whether a press/release
      pair of the keyboard controller completes or raises.
    - [_run] is a computation in a small monad threading the oracle
      positions and collecting the events; a Python [return] out of the
      nested loops and a raised exception are the two abnormal results. *)

From Stdlib Require Import List String Ascii ZArith QArith Lia Bool Arith.
From Stdlib Require Import DecimalString Lqa.
Import ListNotations.

Close Scope Q_scope.
Local Open Scope nat_scope.
Local Open Scope string_scope.
Local Open Scope list_scope.

(* ================================================================== *)
(** ** Python's [str] operations *)

(** The part of [str] that consults the Unicode character tables. *)
Record StrOps := {
  isspace  : ascii -> bool;      (* the characters [strip()] removes *)
  isalpha  : ascii -> bool;      (* [ch.isalpha()] *)
  lower    : ascii -> string;    (* [ch.lower()] *)
  swapcase : ascii -> string     (* [ch.swapcase()] *)
}.

Definition code (c : ascii) : nat := nat_of_ascii c.

Definition is_upper (c : ascii) : bool :=
  ((65 <=? code c) && (code c <=? 90))%nat.
Definition is_lower (c : ascii) : bool :=
  ((97 <=? code c) && (code c <=? 122))%nat.

Definition ascii_isspace (c : ascii) : bool :=
  (((9 <=? code c) && (code c <=? 13)) ||
   ((28 <=? code c) && (code c <=? 32)))%nat.

Definition ascii_isalpha (c : ascii) : bool := is_upper c || is_lower c.

Definition ascii_lower (c : ascii) : string :=
  if is_upper c then String (ascii_of_nat (code c + 32)) "" else String c "".

Definition ascii_swapcase (c : ascii) : string :=
  if is_upper c then String (ascii_of_nat (code c + 32)) ""
  else if is_lower c then String (ascii_of_nat (code c - 32)) ""
  else String c "".

Definition ascii_ops : StrOps :=
  {| isspace := ascii_isspace; isalpha := ascii_isalpha;
     lower := ascii_lower; swapcase := ascii_swapcase |}.

(** [needle in hay] on strings: substring test. *)
Definition str_in (needle hay : string) : bool :=
  match index 0 needle hay with Some _ => true | None => false end.

(** [s.split(sep)] for a one-character separator: every occurrence cuts,
    so adjacent separators give empty pieces and the result is never
    empty. *)
Fixpoint split (sep : ascii) (s : string) : list string :=
  match s with
  | EmptyString => [""]
  | String c s' =>
      if Ascii.eqb c sep then "" :: split sep s'
      else match split sep s' with
           | [] => [String c ""]
           | w :: ws => String c w :: ws
           end
  end.

Fixpoint lstrip_by (p : ascii -> bool) (s : string) : string :=
  match s with
  | EmptyString => ""
  | String c s' => if p c then lstrip_by p s' else s
  end.

Fixpoint rstrip_by (p : ascii -> bool) (s : string) : string :=
  match s with
  | EmptyString => ""
  | String c s' =>
      match rstrip_by p s' with
      | EmptyString => if p c then "" else String c ""
      | r => String c r
      end
  end.

(** [s.strip()] *)
Definition strip (ops : StrOps) (s : string) : string :=
  rstrip_by (isspace ops) (lstrip_by (isspace ops) s).

Definition newline : ascii := ascii_of_nat 10.
Definition space : ascii := " "%char.

(** [s.rstrip("\n")] *)
Definition rstrip_newlines (s : string) : string :=
  rstrip_by (Ascii.eqb newline) s.

(** Every character of [s] satisfies [p]. *)
Fixpoint all_chars (p : ascii -> bool) (s : string) : bool :=
  match s with
  | EmptyString => true
  | String c s' => p c && all_chars p s'
  end.

(** [bool(s)]: a string is truthy when it is not empty. *)
Definition truthy (s : string) : bool :=
  match s with EmptyString => false | _ => true end.

(** [word[-1] if word else ""] *)
Fixpoint last_char (word : string) : string :=
  match word with
  | EmptyString => ""
  | String c EmptyString => String c ""
  | String _ rest => last_char rest
  end.

(** [seq[i]] as a one-character string. *)
Definition char_at (seq : string) (i : nat) : string :=
  match get i seq with Some c => String c "" | None => "" end.

Definition vowels : string := "aeiou".
Definition consonants : string := "bcdfghjklmnpqrstvwxyz".
(** [string.ascii_letters] *)
Definition ascii_letters : string :=
  "abcdefghijklmnopqrstuvwxyzABCDEFGHIJKLMNOPQRSTUVWXYZ".

(* ================================================================== *)
(** ** Rational arithmetic as the program uses it *)

(** [x < y] *)
Definition ltb (x y : Q) : bool := negb (Qle_bool y x).

(** [max(a, b)] of Python: [b] when it is larger, else [a]. *)
Definition pymax (a b : Q) : Q := if ltb a b then b else a.

(** [random.uniform(a, b)] is [a + (b - a) * random()]. *)
Definition uniform_of (a b u : Q) : Q := (a + (b - a) * u)%Q.

(* ================================================================== *)
(** ** Events, oracles and the monad of [_run] *)

Inductive key :=
| KChar (ch : string)     (* [keyboard.press(ch)] of [_type_char] *)
| KSpace | KEnter | KBackspace.

(** The call sites of [time.sleep] in [_run]. *)
Inductive pause :=
| Tick | Buffer | ParagraphPause
| TypoHold | CorrectionDelay | BackspaceDelay | CharDelay
| SentencePause | ClausePause | ThoughtPause | WordGap
| BlankLineGap | LineGap.

Inductive event :=
| Status (msg : string)            (* [_schedule_status(msg)] *)
| Finished (handed_off : bool)     (* [_on_finished()]; the flag tells
                                      whether a [stop_callback] was there
                                      to hand to the UI loop *)
| Sleep (p : pause) (d : Q)        (* [time.sleep(d)] *)
| Press (k : key) (delivered : bool).
                                   (* a press/release pair; [false] when
                                      the controller raised *)

Record World := {
  is_set   : nat -> bool;          (* n-th [_stop_event.is_set()] *)
  random   : nat -> Q;             (* n-th draw, as [random.random()] *)
  randbits : nat -> nat;           (* n-th draw, as raw bits for an index *)
  tap      : nat -> key -> bool    (* does the n-th press/release pair
                                      complete without raising? *)
}.

(** The immutable fields of a [GlobalTypingSimulator].  The getters read
    sliders that [start_typing] disables for the duration of a run, so a
    run sees one value per getter. *)
Record GlobalTypingSimulator := {
  get_wpm : Z;
  get_typo_rate : Q;
  get_pause_freq : Q;
  get_sentence_pause : Q;
  get_paragraph_pause : Q;
  get_speed_variation : Q;
  get_mistake_correction_delay : Q;
  stop_callback : bool             (* is a [stop_callback] installed? *)
}.

Record Counters := { polls : nat; draws : nat; taps : nat }.

Inductive res (A : Type) :=
| Val (a : A)      (* normal completion of a statement *)
| Returned         (* a [return] left [_run] *)
| Raised.          (* an exception is propagating *)
Arguments Val {A} a.
Arguments Returned {A}.
Arguments Raised {A}.

Definition M (A : Type) : Type := Counters -> res A * Counters * list event.

Definition ret {A} (a : A) : M A := fun c => (Val a, c, []).

Definition bind {A B} (m : M A) (k : A -> M B) : M B :=
  fun c =>
    match m c with
    | (Val a, c1, t1) =>
        match k a c1 with (r, c2, t2) => (r, c2, t1 ++ t2) end
    | (Returned, c1, t1) => (Returned, c1, t1)
    | (Raised, c1, t1) => (Raised, c1, t1)
    end.

Notation "x <- m ;; k" := (bind m (fun x => k))
  (at level 61, m at next level, right associativity).
Notation "m ;; k" := (bind m (fun _ => k))
  (at level 61, right associativity).

Definition emit (e : event) : M unit := fun c => (Val tt, c, [e]).

(** [return] *)
Definition py_return {A} : M A := fun c => (Returned, c, []).

(** [try: m  except Exception: pass] *)
Definition try_pass (m : M unit) : M unit :=
  fun c =>
    match m c with
    | (Raised, c1, t1) => (Val tt, c1, t1)
    | other => other
    end.

(** [for i, x in enumerate(l): body i x], counting from [i]. *)
Fixpoint for_enum {A} (body : nat -> A -> M unit) (i : nat) (l : list A)
  : M unit :=
  match l with
  | [] => ret tt
  | x :: rest => body i x ;; for_enum body (S i) rest
  end.

(** [for ch in word: body ch] *)
Fixpoint for_chars (body : ascii -> M unit) (word : string) : M unit :=
  match word with
  | EmptyString => ret tt
  | String ch rest => body ch ;; for_chars body rest
  end.

(** [range(n, 0, -1)] *)
Fixpoint range_down (n : nat) : list nat :=
  match n with O => [] | S m => n :: range_down m end.

Definition sleep (p : pause) (d : Q) : M unit := emit (Sleep p d).

Definition string_of_nat (n : nat) : string :=
  NilEmpty.string_of_uint (Nat.to_uint n).

(* ================================================================== *)
(** ** The simulator: [GlobalTypingSimulator._run] and its helpers *)

Section Simulator.

Variable ops : StrOps.
Variable self : GlobalTypingSimulator.
Variable w : World.

(** [self._stop_event.is_set()] *)
Definition poll_stop : M bool :=
  fun c => (Val (is_set w (polls c)),
            {| polls := S (polls c); draws := draws c; taps := taps c |}, []).

(** [random.random()] *)
Definition rand : M Q :=
  fun c => (Val (random w (draws c)),
            {| polls := polls c; draws := S (draws c); taps := taps c |}, []).

(** [random.uniform(a, b)] *)
Definition uniform (a b : Q) : M Q :=
  u <- rand ;; ret (uniform_of a b u).

(** [random.choice(seq)]: one draw, reduced to an index of [seq]. *)
Definition choice (seq : string) : M string :=
  fun c => (Val (char_at seq (randbits w (draws c) mod String.length seq)),
            {| polls := polls c; draws := S (draws c); taps := taps c |}, []).

(** [self.keyboard.press(k); self.keyboard.release(k)], unprotected. *)
Definition press_release (k : key) : M unit :=
  fun c =>
    let c' := {| polls := polls c; draws := draws c; taps := S (taps c) |} in
    if tap w (taps c) k then (Val tt, c', [Press k true])
    else (Raised, c', [Press k false]).

Definition _schedule_status (msg : string) : M unit := emit (Status msg).

Definition _on_finished : M unit := emit (Finished (stop_callback self)).

(** [if self._stop_event.is_set(): self._on_finished(); return] *)
Definition check_stop : M unit :=
  stopped <- poll_stop ;;
  if stopped then _on_finished ;; py_return else ret tt.

Definition _type_char (ch : string) : M unit :=
  try_pass (press_release (KChar ch)).

Definition _choose_typo_char (correct_char : ascii) : M string :=
  u <- rand ;;
  if ltb u 0.15 then ret (swapcase ops correct_char)
  else if str_in (lower ops correct_char) vowels then choice vowels
  else if str_in (lower ops correct_char) consonants then choice consonants
  else choice ascii_letters.

(** Lines 112-117: the delay between the characters of one word. *)
Definition char_delay_of (m : Q) : Q :=
  let wpm := Z.max 1 (get_wpm self) in
  let base_cps := (inject_Z (wpm * 5) / 60)%Q in
  let effective_cps := (base_cps * m)%Q in
  if ltb 0 effective_cps then (1 / effective_cps)%Q else 0.12%Q.

Definition word_char_delay : M Q :=
  let speed_variation := get_speed_variation self in
  word_speed_multiplier <-
    uniform (1 - speed_variation)%Q (1 + speed_variation)%Q ;;
  ret (char_delay_of word_speed_multiplier).

(** Lines 146-147, for the value [r] of [random.uniform(-0.4, 0.6)]. *)
Definition sleep_time_of (char_delay r : Q) : Q :=
  let jitter := (r * char_delay)%Q in
  let sleep_time := pymax 0.01 (char_delay + jitter) in
  sleep_time.

(** Lines 121-148: the body of the loop over the characters of a word. *)
Definition type_one (char_delay : Q) (ch : ascii) : M unit :=
  check_stop ;;
  let typo_rate := get_typo_rate self in
  u <- rand ;;
  let make_typo := ltb u typo_rate in
  (if make_typo && isalpha ops ch then
     wrong_char <- _choose_typo_char ch ;;
     _type_char wrong_char ;;
     m1 <- uniform 0.8 1.6 ;;
     sleep TypoHold (char_delay * m1) ;;
     let correction_delay := get_mistake_correction_delay self in
     m2 <- uniform 0.8 1.2 ;;
     sleep CorrectionDelay (correction_delay * m2) ;;
     press_release KBackspace ;;
     u3 <- rand ;;
     sleep BackspaceDelay (0.05 + u3 * 0.12)
   else ret tt) ;;
  _type_char (String ch "") ;;
  r <- uniform (-0.4) 0.6 ;;
  sleep CharDelay (sleep_time_of char_delay r).

(** Lines 152-176: the space after a word and the pause that follows. *)
Definition inter_word (word : string) : M unit :=
  check_stop ;;
  press_release KSpace ;;
  let last := last_char word in
  let pause_prob := get_pause_freq self in
  if str_in last ".!?" then
    let sentence_pause := get_sentence_pause self in
    pause_time <- uniform (sentence_pause * 0.7) (sentence_pause * 1.4) ;;
    sleep SentencePause pause_time
  else if str_in last ",;:" then
    d <- uniform 0.15 0.45 ;; sleep ClausePause d
  else
    u <- rand ;;
    if ltb u pause_prob then
      d <- uniform 0.2 0.9 ;; sleep ThoughtPause d
    else
      d <- uniform 0.02 0.12 ;; sleep WordGap d.

(** Lines 103-176: the body of the loop over the words of a line. *)
Definition do_word (words : list string) (w_idx : nat) (word : string)
  : M unit :=
  check_stop ;;
  if negb (truthy word) then ret tt      (* [continue] *)
  else
    char_delay <- word_char_delay ;;
    for_chars (type_one char_delay) word ;;
    if (w_idx <? List.length words - 1)%nat then inter_word word else ret tt.

(** Line 100: [line.split(" ") if line.strip() else [""]]. *)
Definition words_of (line : string) : list string :=
  if truthy (strip ops line) then split space line else [""].

(** Lines 102-176. *)
Definition type_line (line : string) : M unit :=
  let words := words_of line in
  for_enum (do_word words) 0 words.

Definition is_blank (line : string) : bool :=
  String.eqb (strip ops line) "".

(** Lines 179-191: the Enter after a line that is not the last one. *)
Definition end_of_line (lines : list string) (line_idx : nat) : M unit :=
  if (line_idx <? List.length lines - 1)%nat then
    check_stop ;;
    press_release KEnter ;;
    if (line_idx + 1 <? List.length lines)%nat
       && is_blank (nth (line_idx + 1) lines "")
    then d <- uniform 0.1 0.25 ;; sleep BlankLineGap d
    else d <- uniform 0.05 0.15 ;; sleep LineGap d
  else ret tt.

(** Lines 87-191: the body of the loop over the lines. *)
Definition do_line (lines : list string) (line_idx : nat) (line : string)
  : M unit :=
  check_stop ;;
  let is_paragraph_start :=
    (0 <? line_idx)%nat && is_blank (nth (line_idx - 1) lines "")
    && negb (is_blank line) in
  (if is_paragraph_start then
     let paragraph_pause := get_paragraph_pause self in
     d <- uniform (paragraph_pause * 0.8) (paragraph_pause * 1.3) ;;
     sleep ParagraphPause d
   else ret tt) ;;
  type_line line ;;
  end_of_line lines line_idx.

(** Lines 72-78: one tick of the countdown. *)
Definition tick (i : nat) : M unit :=
  check_stop ;;
  _schedule_status
    ("Switch to target window! Starting in " ++ string_of_nat i ++ "s...")%string ;;
  sleep Tick 1.

Definition countdown : nat := 5.

(** The statements of [_run], in order. *)
Definition run_body (full_text : string) : M unit :=
  for_enum (fun _ i => tick i) 0 (range_down countdown) ;;
  _schedule_status "Typing..." ;;
  sleep Buffer 0.2 ;;
  let lines := split newline full_text in
  for_enum (do_line lines) 0 lines ;;
  _schedule_status "Done!" ;;
  _on_finished.

(** How the thread running [_run] ends. *)
Inductive outcome := Completed | Cancelled | Crashed.

Definition start_counters : Counters := {| polls := 0; draws := 0; taps := 0 |}.

(** [_run(full_text)]: how the thread ends and what it did, in order. *)
Definition _run (full_text : string) : outcome * list event :=
  match run_body full_text start_counters with
  | (Val _, _, t) => (Completed, t)
  | (Returned, _, t) => (Cancelled, t)
  | (Raised, _, t) => (Crashed, t)
  end.

End Simulator.

(* ================================================================== *)
(** ** The mutable state of the simulator: [start] and [stop] *)

(** A [threading.Thread] whose target is [_run]. *)
Record Thread := { args : string; is_alive : bool }.

Record Runtime := {
  _stop_event : bool;
  _thread : option Thread;
  started : list string     (* the texts of all threads started so far *)
}.

Definition idle : Runtime :=
  {| _stop_event := false; _thread := None; started := [] |}.

(** [self._thread and self._thread.is_alive()] *)
Definition running (rt : Runtime) : bool :=
  match _thread rt with Some t => is_alive t | None => false end.

Definition start (full_text : string) (rt : Runtime) : Runtime :=
  if running rt then rt       (* already running *)
  else {| _stop_event := false;
          _thread := Some {| args := full_text; is_alive := true |};
          started := started rt ++ [full_text] |}.

Definition stop (rt : Runtime) : Runtime :=
  {| _stop_event := true; _thread := _thread rt; started := started rt |}.

(** The step the thread itself takes when [_run] is over. *)
Definition thread_exit (rt : Runtime) : Runtime :=
  {| _stop_event := _stop_event rt;
     _thread := match _thread rt with
                | Some t => Some {| args := args t; is_alive := false |}
                | None => None
                end;
     started := started rt |}.

(* ================================================================== *)
(** ** The [start_typing] handler of [build_gui] *)

Record Gui := {
  simulator : Runtime;
  controls_enabled : bool;    (* the Type button, the text box, the scales *)
  stop_button_enabled : bool;
  status_label : string;
  panic_window : bool;
  dialogs : list (string * string)   (* [messagebox.showinfo] calls *)
}.

(** [content] is what [source_text.get("1.0", tk.END)] returns. *)
Definition start_typing (ops : StrOps) (content : string) (g : Gui) : Gui :=
  let full_text := rstrip_newlines content in
  if negb (truthy (strip ops full_text)) then
    {| simulator := simulator g;
       controls_enabled := controls_enabled g;
       stop_button_enabled := stop_button_enabled g;
       status_label := status_label g;
       panic_window := panic_window g;
       dialogs := dialogs g ++ [("No text", "Please provide some text to type.")] |}
  else
    {| simulator := start full_text (simulator g);
       controls_enabled := false;
       stop_button_enabled := true;
       status_label := "Switch to your target window NOW! (5 seconds...)";
       panic_window := true;
       dialogs := dialogs g |}.

(* ================================================================== *)
(** ** Reading a trace *)

(** The keys that reached the sink, in order. *)
Fixpoint keys (t : list event) : list key :=
  match t with
  | [] => []
  | Press k true :: t' => k :: keys t'
  | _ :: t' => keys t'
  end.

Definition count (p : event -> bool) (t : list event) : nat :=
  List.length (filter p t).

Definition is_finished (e : event) : bool :=
  match e with Finished _ => true | _ => false end.

Definition is_space_press (e : event) : bool :=
  match e with Press KSpace _ => true | _ => false end.

(** The pauses chosen at a word boundary. *)
Definition is_word_pause (e : event) : bool :=
  match e with
  | Sleep SentencePause _ | Sleep ClausePause _
  | Sleep ThoughtPause _ | Sleep WordGap _ => true
  | _ => false
  end.

(** The actions a scenario of the specification lists: the keystrokes
    sent to the sink, and the pauses between words, lines and paragraphs
    (not the delay after each character, nor the countdown). *)
Inductive action := AKey (k : key) | APause (p : pause).

Fixpoint actions (t : list event) : list action :=
  match t with
  | [] => []
  | Press k _ :: t' => AKey k :: actions t'
  | Sleep p _ :: t' =>
      match p with
      | ParagraphPause | SentencePause | ClausePause | ThoughtPause
      | WordGap | BlankLineGap | LineGap => APause p :: actions t'
      | _ => actions t'
      end
  | _ :: t' => actions t'
  end.

Definition is_char_action (a : action) : bool :=
  match a with AKey (KChar _) => true | _ => false end.

Definition is_backspace_action (a : action) : bool :=
  match a with AKey KBackspace => true | _ => false end.

(** What typing [word] looks like when every letter draws a typo: for each
    letter a wrong key, a backspace, the letter. *)
Fixpoint typo_pattern (word : string) (acts : list action) : Prop :=
  match word with
  | EmptyString => acts = []
  | String ch rest =>
      exists wrong acts',
        acts = AKey (KChar wrong) :: AKey KBackspace
                 :: AKey (KChar (String ch "")) :: acts'
        /\ typo_pattern rest acts'
  end.

(** What typing [word] looks like without typos: one key per character. *)
Fixpoint plain_pattern (word : string) : list action :=
  match word with
  | EmptyString => []
  | String ch rest => AKey (KChar (String ch "")) :: plain_pattern rest
  end.

Fixpoint statuses (t : list event) : list string :=
  match t with
  | [] => []
  | Status msg :: t' => msg :: statuses t'
  | _ :: t' => statuses t'
  end.

(** A trace with the delivery flag of character keys forgotten. *)
Definition shape (e : event) : event :=
  match e with
  | Press (KChar ch) _ => Press (KChar ch) true
  | other => other
  end.

Definition is_special (k : key) : bool :=
  match k with KChar _ => false | _ => true end.

(** The world in which every character key is accepted, the rest alike. *)
Definition accepting (w : World) : World :=
  {| is_set := is_set w; random := random w; randbits := randbits w;
     tap := fun n k => if is_special k then tap w n k else true |}.

(** Maximal runs of spaces in a line; [prev] tells whether the character
    before [s] was a space. *)
Fixpoint space_runs_from (prev : bool) (s : string) : nat :=
  match s with
  | EmptyString => 0
  | String c s' =>
      if Ascii.eqb c space
      then (if prev then 0 else 1) + space_runs_from true s'
      else space_runs_from false s'
  end.

Definition space_runs (line : string) : nat := space_runs_from false line.

(* ================================================================== *)
(** ** Notions used to state the lifecycle properties *)

Section LifecycleNotions.

Variable ops : StrOps.
Variable self : GlobalTypingSimulator.
Variable w : World.

(** Some press/release pair of SPACE, ENTER or BACKSPACE raises. *)
Definition special_failure : Prop :=
  exists n k, is_special k = true /\ tap w n k = false.

(** The shape every statement of [_run] has: it notifies only when it
    returns, then exactly once and as its last act; it raises only out of
    an unprotected press. *)
Definition tidy {A} (m : M A) : Prop :=
  forall c,
    match m c with
    | (Val _, _, t) => count is_finished t = 0
    | (Returned, _, t) =>
        exists t', t = t' ++ [Finished (stop_callback self)]
                   /\ count is_finished t' = 0
    | (Raised, _, t) => count is_finished t = 0 /\ special_failure
    end.

(** Everything of [_run] before its last two statements. *)
Definition typing_part (full_text : string) : M unit :=
  for_enum (fun _ i => tick self w i) 0 (range_down countdown) ;;
  _schedule_status "Typing..." ;;
  sleep Buffer 0.2 ;;
  let lines := split newline full_text in
  for_enum (do_line ops self w lines) 0 lines.

End LifecycleNotions.

(* ================================================================== *)
(** ** Notions used to state how failures and scenarios behave *)

(** Two computations that end alike, leave the oracles at the same
    positions and did the same things, up to whether character keys were
    delivered. *)
Definition agree {A} (m1 m2 : M A) : Prop :=
  forall c,
    match m1 c, m2 c with
    | (r1, c1, t1), (r2, c2, t2) =>
        r1 = r2 /\ c1 = c2 /\ map shape t1 = map shape t2
    end.

(** A computation that always completes normally, with [Q] relating its
    value and the actions it performed. *)
Definition yields {A} (m : M A) (Q : A -> list action -> Prop) : Prop :=
  forall c, exists a c' t, m c = (Val a, c', t) /\ Q a (actions t).

(** The run is not aborted by a keystroke the sink refuses. *)
Definition survives_failures (ops : StrOps) (self : GlobalTypingSimulator)
  (w : World) (full_text : string) : Prop :=
  fst (_run ops self w full_text) <> Crashed.

(** The run reaches a terminal state and notifies exactly once. *)
Definition notifies_once (ops : StrOps) (self : GlobalTypingSimulator)
  (w : World) (full_text : string) : Prop :=
  (fst (_run ops self w full_text) = Completed
   \/ fst (_run ops self w full_text) = Cancelled)
  /\ count is_finished (snd (_run ops self w full_text)) = 1.

(** A world in which nobody asks to stop and the sink accepts every key. *)
Record nominal (w : World) : Prop := {
  never_stopped : forall n, is_set w n = false;
  all_delivered : forall n k, tap w n k = true;
  unit_draws : forall n, (0 <= random w n /\ random w n < 1)%Q
}.

(* ================================================================== *)
(** ** Concrete configurations and worlds for the scenarios *)

(** The default positions of the sliders of [build_gui]. *)
Definition default_sim : GlobalTypingSimulator :=
  {| get_wpm := 60; get_typo_rate := 0.03; get_pause_freq := 0.08;
     get_sentence_pause := 1.0; get_paragraph_pause := 2.0;
     get_speed_variation := 0.4; get_mistake_correction_delay := 0.3;
     stop_callback := true |}.

Definition with_rates (typo_rate pause_freq : Q) : GlobalTypingSimulator :=
  {| get_wpm := 60; get_typo_rate := typo_rate; get_pause_freq := pause_freq;
     get_sentence_pause := 1.0; get_paragraph_pause := 2.0;
     get_speed_variation := 0.4; get_mistake_correction_delay := 0.3;
     stop_callback := true |}.

(** Nobody stops, every draw is one half, every key is accepted. *)
Definition calm : World :=
  {| is_set := fun _ => false; random := fun _ => 0.5%Q;
     randbits := fun _ => 0; tap := fun _ _ => true |}.

(** As [calm], but the sink refuses the space key. *)
Definition space_jams : World :=
  {| is_set := fun _ => false; random := fun _ => 0.5%Q;
     randbits := fun _ => 0;
     tap := fun _ k => match k with KSpace => false | _ => true end |}.

(** As [calm], but the sink refuses every character key. *)
Definition chars_jam : World :=
  {| is_set := fun _ => false; random := fun _ => 0.5%Q;
     randbits := fun _ => 0;
     tap := fun _ k => match k with KChar _ => false | _ => true end |}.

Definition nl : string := String newline "".

(** The two scenarios of the specification. *)
Definition hi_bye : string := ("Hi." ++ nl ++ "Bye")%string.

(** The actions the specification lists for [hi_bye]. *)
Definition hi_bye_listed : list action :=
  [AKey (KChar "H"); AKey (KChar "i"); AKey (KChar ".");
   APause SentencePause; AKey KEnter; APause LineGap;
   AKey (KChar "B"); AKey (KChar "y"); AKey (KChar "e")].

(** The numbers of character keys and of backspaces among some actions. *)
Definition char_keys (acts : list action) : nat :=
  List.length (filter is_char_action acts).

Definition backspaces (acts : list action) : nat :=
  List.length (filter is_backspace_action acts).

(** Every event of the computation satisfies [P]. *)
Definition each {A} (P : event -> Prop) (m : M A) : Prop :=
  forall c, Forall P (snd (m c)).

(** The rate [_run] divides by: [effective_cps] for multiplier [m]. *)
Definition effective_cps_of (self : GlobalTypingSimulator) (m : Q) : Q :=
  (inject_Z (Z.max 1 (get_wpm self) * 5) / 60 * m)%Q.

(** The window as [build_gui] leaves it. *)
Definition fresh_gui : Gui :=
  {| simulator := idle; controls_enabled := true;
     stop_button_enabled := false;
     status_label := "Ready - Click 'Type' then switch to target window";
     panic_window := false; dialogs := [] |}.

(** An event that is neither a press of the space key nor one of the
    pauses chosen at a word boundary. *)
Definition quiet (e : event) : Prop :=
  is_space_press e = false /\ is_word_pause e = false.

(** An event that is not a press of the space key. *)
Definition no_space (e : event) : Prop := is_space_press e = false.



(** The non-empty words of a line that have a successor: the places
    where [do_word] reaches [inter_word]. *)
Fixpoint boundaries (words : list string) : nat :=
  match words with
  | [] => 0
  | word :: rest =>
      (match rest with
       | [] => 0
       | _ => if truthy word then 1 else 0
       end) + boundaries rest
  end.

(** The computation emits at most [n] presses of the space key. *)
Definition spaces_at_most {A} (n : nat) (m : M A) : Prop :=
  forall c, count is_space_press (snd (m c)) <= n.

(** As [boundaries], but counting the first word as non-empty. *)
Definition boundaries_headed (words : list string) : nat :=
  match words with
  | [] => 0
  | _ :: rest => (match rest with [] => 0 | _ => 1 end) + boundaries rest
  end.

(** [n] spaces. *)
Fixpoint spaces (n : nat) : string :=
  match n with O => "" | S k => String space (spaces k) end.

Definition not_space (c : ascii) : bool := negb (Ascii.eqb c space).

(* ================================================================== *)
(** ** Notions for the countdown and for the latency of a stop *)

(** The status of the tick that announces [i] seconds. *)
Definition tick_message (i : nat) : string :=
  ("Switch to target window! Starting in " ++ string_of_nat i ++ "s...")%string.

(** What one tick of the countdown does when it is not stopped. *)
Definition tick_events (i : nat) : list event :=
  [Status (tick_message i); Sleep Tick 1].

(** The first [k] ticks of the countdown. *)
Definition countdown_events (k : nat) : list event :=
  flat_map tick_events (firstn k (range_down countdown)).

(** Everything [_run] does before it looks at the text. *)
Definition preamble : list event :=
  countdown_events countdown ++ [Status "Typing..."; Sleep Buffer 0.2].

(** [n] more checks of the stop flag. *)
Definition advance_polls (n : nat) (c : Counters) : Counters :=
  {| polls := polls c + n; draws := draws c; taps := taps c |}.

Definition is_press (e : event) : bool :=
  match e with Press _ _ => true | _ => false end.

Definition no_press (e : event) : Prop := is_press e = false.

(** A statement that, started no later than the [k]-th check of the stop
    flag, checks the flag before every group of at most three presses and
    never gets past check [k] when told to return there. *)
Definition paced (k : nat) {A} (m : M A) : Prop :=
  forall c, polls c <= k ->
    match m c with
    | (Val _, c', t) =>
        polls c <= polls c' /\ polls c' <= k
        /\ count is_press t <= 3 * (polls c' - polls c)
    | (Returned, c', t) =>
        polls c < polls c' /\ polls c' <= k + 1
        /\ count is_press t <= 3 * (polls c' - polls c - 1)
    | (Raised, c', t) =>
        polls c <= polls c' /\ polls c' <= k
        /\ count is_press t <= 3 * (polls c' - polls c)
    end.

(** A statement that does not look at the stop flag, never returns from
    [_run] and presses at most [n] keys. *)
Definition burst (n : nat) {A} (m : M A) : Prop :=
  forall c,
    match m c with
    | (Returned, _, _) => False
    | (_, c', t) => polls c' = polls c /\ count is_press t <= n
    end.

(* ================================================================== *)
(** ** What an undisturbed run types: the skeleton of a text *)

(** [flat_map] with the index of each element. *)
Fixpoint flat_enum {A B} (f : nat -> A -> list B) (i : nat) (l : list A)
  : list B :=
  match l with
  | [] => []
  | x :: rest => f i x ++ flat_enum f (S i) rest
  end.

(** The pause after the space that follows [word], when no thoughtful
    pause is drawn. *)
Definition boundary_pause (word : string) : pause :=
  if str_in (last_char word) ".!?" then SentencePause
  else if str_in (last_char word) ",;:" then ClausePause
  else WordGap.

(** The actions for the word at index [w_idx] of [words], typos apart. *)
Definition word_skeleton (words : list string) (w_idx : nat) (word : string)
  : list action :=
  if truthy word then
    plain_pattern word
    ++ (if (w_idx <? List.length words - 1)%nat
        then [AKey KSpace; APause (boundary_pause word)] else [])
  else [].

(** The actions for the line at index [line_idx] of [lines]. *)
Definition line_skeleton (ops : StrOps) (lines : list string) (line_idx : nat)
  (line : string) : list action :=
  (if (0 <? line_idx)%nat && is_blank ops (nth (line_idx - 1) lines "")
      && negb (is_blank ops line)
   then [APause ParagraphPause] else [])
  ++ flat_enum (word_skeleton (words_of ops line)) 0 (words_of ops line)
  ++ (if (line_idx <? List.length lines - 1)%nat
      then [AKey KEnter;
            APause (if is_blank ops (nth (line_idx + 1) lines "")
                    then BlankLineGap else LineGap)]
      else []).

Definition skeleton (ops : StrOps) (full_text : string) : list action :=
  flat_enum (line_skeleton ops (split newline full_text)) 0
    (split newline full_text).

(** [acts] is [skel] with, here and there, a wrong character and a
    backspace put before a character, and a gap between two words
    lengthened to a thoughtful pause. *)
Inductive typed_as : list action -> list action -> Prop :=
| typed_nil : typed_as [] []
| typed_same a acts skel :
    typed_as acts skel -> typed_as (a :: acts) (a :: skel)
| typed_typo wrong ch acts skel :
    typed_as acts skel ->
    typed_as (AKey (KChar wrong) :: AKey KBackspace :: AKey (KChar ch) :: acts)
             (AKey (KChar ch) :: skel)
| typed_thought acts skel :
    typed_as acts skel ->
    typed_as (APause ThoughtPause :: acts) (APause WordGap :: skel).

(** A statement that completes normally and whose actions are [skel],
    typos and thoughtful pauses apart. *)
Definition performs (m : M unit) (skel : list action) : Prop :=
  forall c, exists c' t, m c = (Val tt, c', t) /\ typed_as (actions t) skel.

(** A statement that completes normally without any event. *)
Definition mute {A} (m : M A) : Prop :=
  forall c, exists a c', m c = (Val a, c', []).

(** The keys among some actions. *)
Fixpoint keys_of_actions (acts : list action) : list key :=
  match acts with
  | [] => []
  | AKey k :: rest => k :: keys_of_actions rest
  | APause _ :: rest => keys_of_actions rest
  end.

(** What is left of the keys sent once every backspace has erased the key
    before it. *)
Fixpoint replay (screen : list key) (acts : list action) : list key :=
  match acts with
  | [] => screen
  | AKey KBackspace :: rest => replay (removelast screen) rest
  | AKey k :: rest => replay (screen ++ [k]) rest
  | APause _ :: rest => replay screen rest
  end.

(** The key that types a character of a text. *)
Definition key_of_char (c : ascii) : key :=
  if Ascii.eqb c space then KSpace
  else if Ascii.eqb c newline then KEnter
  else KChar (String c "").

Fixpoint text_keys (s : string) : list key :=
  match s with
  | EmptyString => []
  | String c s' => key_of_char c :: text_keys s'
  end.

(** [sep.join(pieces)] *)
Fixpoint join (sep : ascii) (pieces : list string) : string :=
  match pieces with
  | [] => ""
  | [piece] => piece
  | piece :: rest => (piece ++ String sep (join sep rest))%string
  end.

(** No space at the start (when [prev] is set), none at the end, no two in
    a row. *)
Fixpoint well_spaced_from (prev : bool) (s : string) : bool :=
  match s with
  | EmptyString => negb prev
  | String c s' =>
      if Ascii.eqb c space then negb prev && well_spaced_from true s'
      else well_spaced_from false s'
  end.

(** A line the run types character for character: empty, or with some
    visible character and single spaces between its words only. *)
Definition plain_line (ops : StrOps) (line : string) : bool :=
  match line with
  | EmptyString => true
  | _ => negb (is_blank ops line) && well_spaced_from true line
  end.

Definition plain_text (ops : StrOps) (full_text : string) : bool :=
  forallb (plain_line ops) (split newline full_text).

Definition is_enter (a : action) : bool :=
  match a with AKey KEnter => true | _ => false end.

Definition is_paragraph_pause (a : action) : bool :=
  match a with APause ParagraphPause => true | _ => false end.

(** The occurrences of [c] in [s]. *)
Fixpoint occurrences (c : ascii) (s : string) : nat :=
  match s with
  | EmptyString => 0
  | String c' s' => (if Ascii.eqb c' c then 1 else 0) + occurrences c s'
  end.

(** The non-blank lines that follow a blank line; [prev_blank] tells
    whether the line before [lines] was blank. *)
Fixpoint paragraph_starts (ops : StrOps) (prev_blank : bool)
  (lines : list string) : nat :=
  match lines with
  | [] => 0
  | line :: rest =>
      (if prev_blank && negb (is_blank ops line) then 1 else 0)
      + paragraph_starts ops (is_blank ops line) rest
  end.

(** An event that is neither a backspace nor a thoughtful pause. *)
Definition steady (e : event) : Prop :=
  match e with
  | Press KBackspace _ => False
  | Sleep ThoughtPause _ => False
  | _ => True
  end.

Definition steady_action (a : action) : Prop :=
  match a with
  | AKey KBackspace => False
  | APause ThoughtPause => False
  | _ => True
  end.

(** A character that is neither a space nor a newline. *)
Definition ordinary (c : ascii) : bool :=
  negb (Ascii.eqb c space) && negb (Ascii.eqb c newline).

Definition not_sep (sep c : ascii) : bool := negb (Ascii.eqb c sep).

(** The configured speed in characters per second: [base_cps]. *)
Definition base_cps_of (self : GlobalTypingSimulator) : Q :=
  (inject_Z (Z.max 1 (get_wpm self) * 5) / 60)%Q.

(* ================================================================== *)
(** ** The window: the other handlers of [build_gui] *)

(** A literal of the source, byte for byte. *)
Definition bytes (codes : list nat) : string :=
  string_of_list_ascii (map ascii_of_nat codes).

(** The separator in the title and the sign before the panic message, as
    the source file has them. *)
Definition title_dash : string := bytes [195; 162; 226; 130; 172; 226; 128; 157].
Definition panic_sign : string := bytes [195; 176; 197; 184; 197; 161; 194; 168].

Definition ready_label : string :=
  "Ready - Click 'Type' then switch to target window".

Definition plain_title : string := "Global Typing Simulator".

(** The controls of [Gui] and the title of the root window. *)
Record Window := { gui : Gui; title : string }.

(** [do_status] of [_schedule_status], run by the UI loop. *)
Definition do_status (msg : string) (win : Window) : Window :=
  {| gui := gui win;
     title := (plain_title ++ " " ++ title_dash ++ " " ++ msg)%string |}.

(** [on_finished_reset_ui], the [stop_callback] of the simulator. *)
Definition on_finished_reset_ui (win : Window) : Window :=
  {| gui := {| simulator := simulator (gui win);
               controls_enabled := true;
               stop_button_enabled := false;
               status_label := ready_label;
               panic_window := false;
               dialogs := dialogs (gui win) |};
     title := plain_title |}.

Definition stop_typing (win : Window) : Window :=
  {| gui := {| simulator := stop (simulator (gui win));
               controls_enabled := controls_enabled (gui win);
               stop_button_enabled := false;
               status_label := "Stopping...";
               panic_window := panic_window (gui win);
               dialogs := dialogs (gui win) |};
     title := title win |}.

(** [panic_stop] of [create_panic_window]. *)
Definition panic_stop (win : Window) : Window :=
  {| gui := {| simulator := stop (simulator (gui win));
               controls_enabled := controls_enabled (gui win);
               stop_button_enabled := stop_button_enabled (gui win);
               status_label := (panic_sign ++ " PANIC STOP ACTIVATED!")%string;
               panic_window := panic_window (gui win);
               dialogs := dialogs (gui win) |};
     title := title win |}.

(** [start_typing] on the window: it leaves the title alone. *)
Definition type_clicked (ops : StrOps) (content : string) (win : Window)
  : Window :=
  {| gui := start_typing ops content (gui win); title := title win |}.

(** The window [build_gui] returns. *)
Definition fresh_window : Window :=
  {| gui := fresh_gui;
     title := (plain_title ++ " " ++ title_dash ++ " Ready")%string |}.


(** What the user and the UI loop can make happen to the window.  A
    disabled button does not call its handler, and the panic button can
    only be clicked while its window exists. *)
Inductive ui_event :=
| TypeClick (content : string)
| StopClick
| PanicClick
| StatusCallback (msg : string)
| FinishedCallback
| ThreadExits.

Definition handle (ops : StrOps) (e : ui_event) (win : Window) : Window :=
  match e with
  | TypeClick content =>
      if controls_enabled (gui win) then type_clicked ops content win else win
  | StopClick =>
      if stop_button_enabled (gui win) then stop_typing win else win
  | PanicClick =>
      if panic_window (gui win) then panic_stop win else win
  | StatusCallback msg => do_status msg win
  | FinishedCallback => on_finished_reset_ui win
  | ThreadExits =>
      {| gui := {| simulator := thread_exit (simulator (gui win));
                   controls_enabled := controls_enabled (gui win);
                   stop_button_enabled := stop_button_enabled (gui win);
                   status_label := status_label (gui win);
                   panic_window := panic_window (gui win);
                   dialogs := dialogs (gui win) |};
         title := title win |}
  end.

Definition handle_all (ops : StrOps) (es : list ui_event) (win : Window)
  : Window :=
  fold_left (fun acc e => handle ops e acc) es win.

(** The panic button: what its mouse handlers keep, and the position of
    its window ([winfo_x], [winfo_y] answer what [geometry] last set). *)
Record Panic := {
  is_dragging : bool;
  drag_start_x : Z; drag_start_y : Z;
  press_x : Z; press_y : Z;
  win_x : Z; win_y : Z
}.

Record Mouse := { at_x : Z; at_y : Z; x_root : Z; y_root : Z }.

Definition on_press (e : Mouse) (p : Panic) : Panic :=
  {| is_dragging := false;
     drag_start_x := at_x e; drag_start_y := at_y e;
     press_x := x_root e; press_y := y_root e;
     win_x := win_x p; win_y := win_y p |}.

Definition on_motion (e : Mouse) (p : Panic) : Panic :=
  if ((5 <? Z.abs (at_x e - drag_start_x p))
      || (5 <? Z.abs (at_y e - drag_start_y p)))%Z
  then
    let deltax := (x_root e - press_x p)%Z in
    let deltay := (y_root e - press_y p)%Z in
    {| is_dragging := true;
       drag_start_x := drag_start_x p; drag_start_y := drag_start_y p;
       press_x := x_root e; press_y := y_root e;
       win_x := (win_x p + deltax)%Z; win_y := (win_y p + deltay)%Z |}
  else p.

(** [on_release]: is [panic_stop] scheduled?  (The colours of the button
    are left out.) *)
Definition on_release (e : Mouse) (p : Panic) : bool :=
  negb (is_dragging p).

(** A press, the motions with the button held, ready for the release. *)
Definition gesture (press : Mouse) (motions : list Mouse) (p : Panic) : Panic :=
  fold_left (fun acc m => on_motion m acc) motions (on_press press p).

(** The motion stays within 5 pixels of the press, both ways. *)
Definition near (press m : Mouse) : bool :=
  ((Z.abs (at_x m - at_x press) <=? 5)
   && (Z.abs (at_y m - at_y press) <=? 5))%Z.

(* ================================================================== *)
(** ** Notions for what a stop changes *)

(** The same world with the stop flag never set. *)
Definition unstopped (w : World) : World :=
  {| is_set := fun _ => false; random := random w; randbits := randbits w;
     tap := tap w |}.

(** [m1] does what [m2] does, or returns from [_run] part-way through it
    after the notification [note]. *)
Definition cut_short (note : event) {A} (m1 m2 : M A) : Prop :=
  forall c,
    match m1 c, m2 c with
    | (r1, c1, t1), (r2, c2, t2) =>
        (r1 = r2 /\ c1 = c2 /\ t1 = t2)
        \/ (r1 = Returned
            /\ exists done rest, t1 = done ++ [note] /\ t2 = done ++ rest)
    end.

(** An event that is not the status ["Done!"]. *)
Definition not_done (e : event) : Prop :=
  match e with
  | Status msg => String.eqb msg "Done!" = false
  | _ => True
  end.


(* ================================================================== *)
(** ** Notions for the last line of [_choose_typo_char] *)

(** The draw and the character send [_choose_typo_char] past its three
    tests (lines 208, 210 and 212) to the choice among [ascii_letters]. *)
Definition uses_ascii_letters (ops : StrOps) (w : World) (ch : ascii)
  (c : Counters) : bool :=
  negb (ltb (random w (draws c)) 0.15)
  && negb (str_in (lower ops ch) vowels)
  && negb (str_in (lower ops ch) consonants).

(** [ops] lower-cases the ASCII letters as ASCII does. *)
Definition lowers_ascii (ops : StrOps) : Prop :=
  forall ch, ascii_isalpha ch = true -> lower ops ch = ascii_lower ch.

(* ================================================================== *)
(** ** Notions for the sleeps of a run *)

(** [random.random()] answers in the interval [0, 1). *)
Definition unit_interval_draws (w : World) : Prop :=
  forall n, (0 <= random w n /\ random w n < 1)%Q.

(** The three settings that are durations, as their sliders give them:
    the correction delay from 0, the two pauses above 0. *)
Record durations_in_range (self : GlobalTypingSimulator) : Prop := {
  correction_delay_in_range : (0 <= get_mistake_correction_delay self)%Q;
  sentence_pause_in_range : (0 < get_sentence_pause self)%Q;
  paragraph_pause_in_range : (0 < get_paragraph_pause self)%Q
}.

(** Every value the computation returns satisfies [R]. *)
Definition returns {A} (R : A -> Prop) (m : M A) : Prop :=
  forall c, match m c with (Val a, _, _) => R a | _ => True end.

(** A [time.sleep] of the run, by call site.  The sleep after a character
    (line 148) is at least 0.01 s and computed from the delay of a word;
    the hold after a wrong character (line 131) is that delay times a
    factor in [0.8, 1.6), and positive; the sleep before the correction
    (line 135) is not negative, and zero exactly when the correction delay
    is set to 0; every other sleep is positive. *)
Definition sleep_ok (self : GlobalTypingSimulator) (e : event) : Prop :=
  match e with
  | Sleep CharDelay s =>
      (0.01 <= s)%Q
      /\ exists m r, s = sleep_time_of (char_delay_of self m) r
  | Sleep TypoHold s =>
      (0 < s)%Q
      /\ exists m k, s = (char_delay_of self m * k)%Q
                     /\ (0.8 <= k /\ k < 1.6)%Q
  | Sleep CorrectionDelay s =>
      (0 <= s)%Q /\ (s == 0 <-> get_mistake_correction_delay self == 0)%Q
  | Sleep _ s => (0 < s)%Q
  | _ => True
  end.

(** A sleep of no duration. *)
Definition is_zero_sleep (e : event) : Prop :=
  match e with Sleep _ s => (s == 0)%Q | _ => False end.

(** The sliders at their defaults, but for the typo rate at the top of its
    range and the correction delay at the bottom of its range. *)
Definition instant_correction : GlobalTypingSimulator :=
  {| get_wpm := 60; get_typo_rate := 0.25; get_pause_freq := 0.08;
     get_sentence_pause := 1.0; get_paragraph_pause := 2.0;
     get_speed_variation := 0.4; get_mistake_correction_delay := 0;
     stop_callback := true |}.

(** As [calm], with every draw one fifth. *)
Definition low_draws : World :=
  {| is_set := fun _ => false; random := fun _ => 0.2%Q;
     randbits := fun _ => 0; tap := fun _ _ => true |}.
(* ================================================================== *)
(** ** General facts about the monad and the trace readers *)

Create HintDb tidy.

Lemma count_app (p : event -> bool) (t1 t2 : list event) :
  count p (t1 ++ t2) = count p t1 + count p t2.
Proof. unfold count. now rewrite filter_app, length_app. Qed.

Lemma bind_val {A B} (m : M A) (k : A -> M B) c a c1 t1 :
  m c = (Val a, c1, t1) ->
  bind m k c = (let '(r, c2, t2) := k a c1 in (r, c2, t1 ++ t2)).
Proof. intros E. unfold bind. rewrite E. now destruct (k a c1) as [[r c2] t2]. Qed.

Lemma bind_returned {A B} (m : M A) (k : A -> M B) c c1 t1 :
  m c = (Returned, c1, t1) -> bind m k c = (Returned, c1, t1).
Proof. intros E. unfold bind. now rewrite E. Qed.

Lemma bind_raised {A B} (m : M A) (k : A -> M B) c c1 t1 :
  m c = (Raised, c1, t1) -> bind m k c = (Raised, c1, t1).
Proof. intros E. unfold bind. now rewrite E. Qed.

(* ================================================================== *)
(** ** Lifecycle: how a run ends and how often it notifies *)

Section Lifecycle.

Variable ops : StrOps.
Variable self : GlobalTypingSimulator.
Variable w : World.

Lemma tidy_ret {A} (a : A) : tidy self w (ret a).
Proof. intros c. reflexivity. Qed.

Lemma tidy_bind {A B} (m : M A) (k : A -> M B) :
  tidy self w m -> (forall a, tidy self w (k a)) -> tidy self w (bind m k).
Proof.
  intros Hm Hk c. specialize (Hm c). unfold bind.
  destruct (m c) as [[r c1] t1]. destruct r as [a| |]; trivial.
  specialize (Hk a c1). destruct (k a c1) as [[r2 c2] t2].
  destruct r2 as [b| |].
  - rewrite count_app. lia.
  - destruct Hk as (t' & -> & H0). exists (t1 ++ t'). split.
    + now rewrite app_assoc.
    + rewrite count_app. lia.
  - destruct Hk as [H0 Hf]. split; trivial. rewrite count_app. lia.
Qed.

Lemma tidy_emit (e : event) : is_finished e = false -> tidy self w (emit e).
Proof. intros He c. unfold emit, count. simpl. now rewrite He. Qed.

Lemma tidy_sleep p d : tidy self w (sleep p d).
Proof. now apply tidy_emit. Qed.

Lemma tidy_rand : tidy self w (rand w).
Proof. intros c. reflexivity. Qed.

Lemma tidy_uniform a b : tidy self w (uniform w a b).
Proof. apply tidy_bind; [apply tidy_rand | intros; apply tidy_ret]. Qed.

Lemma tidy_choice seq : tidy self w (choice w seq).
Proof. intros c. reflexivity. Qed.

Lemma tidy_press_special k : is_special k = true -> tidy self w (press_release w k).
Proof.
  intros Hk c. unfold press_release.
  destruct (tap w (taps c) k) eqn:E.
  - now destruct k.
  - split; [now destruct k | now exists (taps c), k].
Qed.

Lemma tidy_type_char ch : tidy self w (_type_char w ch).
Proof.
  intros c. unfold _type_char, try_pass, press_release.
  now destruct (tap w (taps c) (KChar ch)).
Qed.

Lemma tidy_check_stop : tidy self w (check_stop self w).
Proof.
  intros c. unfold check_stop, bind, poll_stop, _on_finished, py_return, emit, ret.
  destruct (is_set w (polls c)); simpl; trivial.
  now exists [].
Qed.

Lemma tidy_for_chars (body : ascii -> M unit) word :
  (forall ch, tidy self w (body ch)) -> tidy self w (for_chars body word).
Proof.
  intros Hb. induction word as [|ch rest IH]; simpl.
  - apply tidy_ret.
  - apply tidy_bind; auto.
Qed.

Lemma tidy_for_enum {A} (body : nat -> A -> M unit) l :
  (forall i x, tidy self w (body i x)) -> forall i, tidy self w (for_enum body i l).
Proof.
  intros Hb. induction l as [|x rest IH]; intros i; simpl.
  - apply tidy_ret.
  - apply tidy_bind; auto.
Qed.

#[local] Hint Resolve tidy_ret tidy_sleep tidy_rand tidy_uniform tidy_choice
  tidy_type_char tidy_check_stop : tidy.

Ltac tidy_step :=
  match goal with
  | |- tidy _ _ (bind _ _) => apply tidy_bind; [| intros ?]
  | |- tidy _ _ (if ?b then _ else _) => destruct b
  | |- tidy _ _ (press_release _ _) => apply tidy_press_special; reflexivity
  | |- tidy _ _ (emit _) => apply tidy_emit; reflexivity
  | |- tidy _ _ (for_chars _ _) => apply tidy_for_chars; intros ?
  | |- tidy _ _ (for_enum _ _ _) => apply tidy_for_enum; intros ? ?
  | |- tidy _ _ _ => solve [auto with tidy]
  end.

Lemma tidy_choose_typo_char ch : tidy self w (_choose_typo_char ops w ch).
Proof. unfold _choose_typo_char. repeat tidy_step. Qed.
#[local] Hint Resolve tidy_choose_typo_char : tidy.

Lemma tidy_type_one d ch : tidy self w (type_one ops self w d ch).
Proof. unfold type_one. repeat tidy_step. Qed.
#[local] Hint Resolve tidy_type_one : tidy.

Lemma tidy_inter_word word : tidy self w (inter_word self w word).
Proof. unfold inter_word. repeat tidy_step. Qed.
#[local] Hint Resolve tidy_inter_word : tidy.

Lemma tidy_do_word words i word : tidy self w (do_word ops self w words i word).
Proof. unfold do_word, word_char_delay. repeat tidy_step. Qed.
#[local] Hint Resolve tidy_do_word : tidy.

Lemma tidy_type_line line : tidy self w (type_line ops self w line).
Proof. unfold type_line. repeat tidy_step. Qed.
#[local] Hint Resolve tidy_type_line : tidy.

Lemma tidy_end_of_line lines i : tidy self w (end_of_line ops self w lines i).
Proof. unfold end_of_line. repeat tidy_step. Qed.
#[local] Hint Resolve tidy_end_of_line : tidy.

Lemma tidy_do_line lines i line : tidy self w (do_line ops self w lines i line).
Proof. unfold do_line. repeat tidy_step. Qed.
#[local] Hint Resolve tidy_do_line : tidy.

Lemma tidy_tick i : tidy self w (tick self w i).
Proof. unfold tick, _schedule_status. repeat tidy_step. Qed.
#[local] Hint Resolve tidy_tick : tidy.

Lemma tidy_typing_part full_text :
  tidy self w (typing_part ops self w full_text).
Proof. unfold typing_part, _schedule_status. repeat tidy_step. Qed.

Lemma run_body_split full_text c :
  run_body ops self w full_text c
  = (typing_part ops self w full_text ;;
     _schedule_status "Done!" ;; _on_finished self) c.
Proof.
  unfold run_body, typing_part, bind.
  destruct (for_enum _ 0 (range_down countdown) c) as [[[[]| |] c1] t1]; trivial.
  destruct (_schedule_status "Typing..." c1) as [[[[]| |] c2] t2]; trivial.
  destruct (sleep Buffer 0.2 c2) as [[[[]| |] c3] t3]; trivial.
  destruct (for_enum _ 0 (split newline full_text) c3) as [[[[]| |] c4] t4];
    trivial.
  destruct (_schedule_status "Done!" c4) as [[[[]| |] c5] t5];
    try (now rewrite ?app_assoc).
  destruct (_on_finished self c5) as [[[[]| |] c6] t6];
    now rewrite ?app_assoc.
Qed.



End Lifecycle.


(** C1, where the code breaks it: the text ["a b"] and a sink that raises
    on the space key.  The run types [a]; the press of SPACE (line 156)
    is outside any [try], so the exception leaves [_run] there and the
    thread dies.  The run reaches neither [Completed] nor [Cancelled] and
    [_on_finished] is never called, although [_run] calls it before each of
    its returns and as its last statement, and [_type_char] protects the
    same two calls for a character key. *)
Theorem space_failure_skips_notification :
  fst (_run ascii_ops default_sim space_jams "a b") = Crashed
  /\ keys (snd (_run ascii_ops default_sim space_jams "a b")) = [KChar "a"]
  /\ last (snd (_run ascii_ops default_sim space_jams "a b")) (Status "")
     = Press KSpace false
  /\ count is_finished (snd (_run ascii_ops default_sim space_jams "a b")) = 0
  /\ ~ notifies_once ascii_ops default_sim space_jams "a b".
Proof.
  repeat split.
  unfold notifies_once. intros [[H | H] _]; vm_compute in H; discriminate.
Qed.

(* ================================================================== *)
(** ** Failures of the sink *)

Lemma agree_refl {A} (m : M A) : agree m m.
Proof. intros c. now destruct (m c) as [[r c1] t1]. Qed.

Lemma agree_bind {A B} (m1 m2 : M A) (k1 k2 : A -> M B) :
  agree m1 m2 -> (forall a, agree (k1 a) (k2 a)) ->
  agree (bind m1 k1) (bind m2 k2).
Proof.
  intros Hm Hk c. specialize (Hm c). unfold bind.
  destruct (m1 c) as [[r1 c1] t1], (m2 c) as [[r2 c2] t2].
  destruct Hm as (<- & <- & Ht). destruct r1 as [a| |]; auto.
  specialize (Hk a c1).
  destruct (k1 a c1) as [[r1' c1'] t1'], (k2 a c1) as [[r2' c2'] t2'].
  destruct Hk as (<- & <- & Ht'). rewrite !map_app, Ht, Ht'. auto.
Qed.

Lemma agree_for_chars (b1 b2 : ascii -> M unit) word :
  (forall ch, agree (b1 ch) (b2 ch)) ->
  agree (for_chars b1 word) (for_chars b2 word).
Proof.
  intros Hb. induction word as [|ch rest IH]; simpl.
  - apply agree_refl.
  - apply agree_bind; auto.
Qed.

Lemma agree_for_enum {A} (b1 b2 : nat -> A -> M unit) l :
  (forall i x, agree (b1 i x) (b2 i x)) ->
  forall i, agree (for_enum b1 i l) (for_enum b2 i l).
Proof.
  intros Hb. induction l as [|x rest IH]; intros i; simpl.
  - apply agree_refl.
  - apply agree_bind; auto.
Qed.

Section Swallowed.

Variable ops : StrOps.
Variable self : GlobalTypingSimulator.
Variable w : World.

Lemma agree_press_special k :
  is_special k = true ->
  agree (press_release w k) (press_release (accepting w) k).
Proof.
  intros Hk c. unfold press_release, accepting. simpl. rewrite Hk.
  now destruct (tap w (taps c) k).
Qed.

(** [_type_char] ends normally whether the sink took the character or
    raised. *)
Lemma agree_type_char ch :
  agree (_type_char w ch) (_type_char (accepting w) ch).
Proof.
  intros c. unfold _type_char, try_pass, press_release, accepting. simpl.
  now destruct (tap w (taps c) (KChar ch)).
Qed.

Ltac agree_step :=
  match goal with
  | |- agree (bind _ _) (bind _ _) => apply agree_bind; [| intros ?]
  | |- agree (if ?b then _ else _) (if ?b then _ else _) => destruct b
  | |- agree (press_release _ _) (press_release _ _) =>
      apply agree_press_special; reflexivity
  | |- agree (_type_char _ _) (_type_char _ _) => apply agree_type_char
  | |- agree (for_chars _ _) (for_chars _ _) =>
      apply agree_for_chars; intros ?
  | |- agree (for_enum _ _ _) (for_enum _ _ _) =>
      apply agree_for_enum; intros ? ?
  | |- agree _ _ => apply agree_refl
  end.

Lemma agree_type_one d ch :
  agree (type_one ops self w d ch) (type_one ops self (accepting w) d ch).
Proof. unfold type_one, _choose_typo_char. repeat agree_step. Qed.

Lemma agree_inter_word word :
  agree (inter_word self w word) (inter_word self (accepting w) word).
Proof. unfold inter_word. repeat agree_step. Qed.

Lemma agree_do_word words i word :
  agree (do_word ops self w words i word)
        (do_word ops self (accepting w) words i word).
Proof.
  unfold do_word.
  repeat agree_step; auto using agree_type_one, agree_inter_word.
Qed.

Lemma agree_do_line lines i line :
  agree (do_line ops self w lines i line)
        (do_line ops self (accepting w) lines i line).
Proof.
  unfold do_line, type_line, end_of_line.
  repeat agree_step; auto using agree_do_word.
Qed.

Lemma agree_run_body full_text :
  agree (run_body ops self w full_text)
        (run_body ops self (accepting w) full_text).
Proof.
  unfold run_body. repeat agree_step; auto using agree_do_line.
Qed.

(** What [_type_char] protects: a character key the sink refuses, be it
    the wrong character of a typo or the intended one, changes nothing else
    of the run: it ends the same way and performs the same actions in the
    same order as in the world where every character key is accepted. *)
Theorem char_failures_are_swallowed full_text :
  fst (_run ops self w full_text) = fst (_run ops self (accepting w) full_text)
  /\ map shape (snd (_run ops self w full_text))
     = map shape (snd (_run ops self (accepting w) full_text)).
Proof.
  pose proof (agree_run_body full_text start_counters) as H. unfold _run.
  destruct (run_body ops self w full_text start_counters) as [[r1 c1] t1].
  destruct (run_body ops self (accepting w) full_text start_counters)
    as [[r2 c2] t2].
  destruct H as (<- & _ & Ht). now destruct r1.
Qed.

End Swallowed.

(** Every character key refused: the run of ["a b"] still completes and
    the space is sent. *)
Example refused_characters_are_skipped :
  fst (_run ascii_ops default_sim chars_jam "a b") = Completed
  /\ keys (snd (_run ascii_ops default_sim chars_jam "a b")) = [KSpace]
  /\ actions (snd (_run ascii_ops default_sim chars_jam "a b"))
     = [AKey (KChar "a"); AKey KSpace; APause WordGap; AKey (KChar "b")].
Proof. repeat split. Qed.

(** C2, where the code breaks it: the text ["a b"] and a sink that raises
    on the space key.  The failure of the SPACE keystroke is not caught:
    the run is aborted by it and the next scheduled action, the key [b],
    is never performed, where the undisturbed run sends [a], SPACE, [b].
    The presses of SPACE, ENTER and BACKSPACE (lines 156, 184 and 140) are
    bare, while [_type_char] wraps the same calls in [try]/[except] for a
    character key: with a sink that raises on every character instead, the
    run of the same text completes. *)
Theorem space_failure_aborts_run :
  actions (snd (_run ascii_ops default_sim space_jams "a b"))
  = [AKey (KChar "a"); AKey KSpace]
  /\ actions (snd (_run ascii_ops default_sim calm "a b"))
     = [AKey (KChar "a"); AKey KSpace; APause WordGap; AKey (KChar "b")]
  /\ ~ survives_failures ascii_ops default_sim space_jams "a b"
  /\ survives_failures ascii_ops default_sim chars_jam "a b".
Proof.
  repeat split.
  - unfold survives_failures. intros H. apply H. vm_compute. reflexivity.
  - unfold survives_failures. vm_compute. discriminate.
Qed.

(* ================================================================== *)
(** ** Undisturbed runs: nobody stops, the sink accepts every key *)

Lemma actions_app (t1 t2 : list event) :
  actions (t1 ++ t2) = actions t1 ++ actions t2.
Proof.
  induction t1 as [|e t1 IH]; simpl; trivial.
  destruct e as [msg|b|p d|k b]; simpl; rewrite ?IH; trivial.
  now destruct p.
Qed.

Lemma bind_assoc {A B C} (m : M A) (k : A -> M B) (h : B -> M C) c :
  bind (bind m k) h c = bind m (fun x => bind (k x) h) c.
Proof.
  unfold bind. destruct (m c) as [[[a| |] c1] t1]; trivial.
  destruct (k a c1) as [[[b| |] c2] t2]; trivial.
  destruct (h b c2) as [[r c3] t3]. now rewrite app_assoc.
Qed.

Lemma ltb_false_of_le (x y : Q) : (y <= x)%Q -> ltb x y = false.
Proof. intros H. unfold ltb. apply Qle_bool_iff in H. now rewrite H. Qed.

Lemma ltb_true_of_lt (x y : Q) : (x < y)%Q -> ltb x y = true.
Proof.
  intros H. unfold ltb. destruct (Qle_bool y x) eqn:E; trivial.
  apply Qle_bool_iff in E. exfalso. exact (Qlt_not_le _ _ H E).
Qed.

Lemma ltb_true_iff (x y : Q) : ltb x y = true <-> (x < y)%Q.
Proof.
  split; [| apply ltb_true_of_lt].
  intros H. apply Qnot_le_lt. intros Hle.
  rewrite (ltb_false_of_le _ _ Hle) in H. discriminate.
Qed.

Section Undisturbed.

Variable ops : StrOps.
Variable self : GlobalTypingSimulator.
Variable w : World.
Hypothesis Hw : nominal w.

Lemma wp_gen {A B} (m : M A) (k : A -> M B) Q :
  (forall c, exists a c' t,
      m c = (Val a, c', t)
      /\ yields (k a) (fun y acts => Q y (actions t ++ acts))) ->
  yields (bind m k) Q.
Proof.
  intros H c. destruct (H c) as (a & c1 & t1 & E & Hk).
  destruct (Hk c1) as (b & c2 & t2 & E2 & HQ).
  exists b, c2, (t1 ++ t2). split.
  - rewrite (bind_val _ _ _ _ _ _ E), E2. reflexivity.
  - now rewrite actions_app.
Qed.

Lemma wp_assoc {A B C} (m : M A) (k : A -> M B) (h : B -> M C) Q :
  yields (bind m (fun x => bind (k x) h)) Q -> yields (bind (bind m k) h) Q.
Proof. intros H c. rewrite bind_assoc. apply H. Qed.

Lemma wp_done {A} (a : A) (Q : A -> list action -> Prop) :
  Q a [] -> yields (ret a) Q.
Proof. intros H c. now exists a, c, []. Qed.

Lemma wp_ret {A B} (a : A) (k : A -> M B) Q :
  yields (k a) Q -> yields (bind (ret a) k) Q.
Proof. intros H. apply wp_gen. intros c. now exists a, c, []. Qed.

Lemma wp_tail {A} (m : M A) Q : yields (bind m ret) Q -> yields m Q.
Proof.
  intros H c. destruct (H c) as (a & c' & t & E & HQ).
  unfold bind, ret in E. destruct (m c) as [[[x| |] c1] t1]; try discriminate.
  injection E as -> -> <-. exists a, c', t1. now rewrite app_nil_r in HQ.
Qed.

Lemma wp_emit {B} (e : event) (k : unit -> M B) Q :
  yields (k tt) (fun y acts => Q y (actions [e] ++ acts)) ->
  yields (bind (emit e) k) Q.
Proof. intros H. apply wp_gen. intros c. now exists tt, c, [e]. Qed.

Lemma wp_rand {B} (k : Q -> M B) P :
  (forall u, (0 <= u)%Q -> (u < 1)%Q -> yields (k u) P) ->
  yields (bind (rand w) k) P.
Proof.
  intros H. apply wp_gen. intros c. unfold rand.
  destruct (unit_draws w Hw (draws c)) as [H0 H1].
  eexists _, _, []. split; [reflexivity |]. now apply H.
Qed.

Lemma wp_uniform {B} a b (k : Q -> M B) P :
  (forall v, yields (k v) P) -> yields (bind (uniform w a b) k) P.
Proof.
  intros H. unfold uniform. apply wp_assoc, wp_rand. intros u _ _.
  apply wp_ret, H.
Qed.

Lemma wp_choice {B} seq (k : string -> M B) P :
  (forall s, yields (k s) P) -> yields (bind (choice w seq) k) P.
Proof.
  intros H. apply wp_gen. intros c. unfold choice.
  eexists _, _, []. split; [reflexivity |]. apply H.
Qed.

Lemma wp_press {B} key (k : unit -> M B) Q :
  yields (k tt) (fun y acts => Q y (AKey key :: acts)) ->
  yields (bind (press_release w key) k) Q.
Proof.
  intros H. apply wp_gen. intros c. unfold press_release.
  rewrite (all_delivered w Hw). eexists tt, _, _. split; [reflexivity |].
  exact H.
Qed.

Lemma wp_type_char {B} ch (k : unit -> M B) Q :
  yields (k tt) (fun y acts => Q y (AKey (KChar ch) :: acts)) ->
  yields (bind (_type_char w ch) k) Q.
Proof.
  intros H. apply wp_gen. intros c. unfold _type_char, try_pass, press_release.
  rewrite (all_delivered w Hw). eexists tt, _, _. split; [reflexivity |].
  exact H.
Qed.

Lemma wp_check_stop {B} (k : unit -> M B) Q :
  yields (k tt) Q -> yields (bind (check_stop self w) k) Q.
Proof.
  intros H. apply wp_gen. intros c. unfold check_stop, bind, poll_stop.
  rewrite (never_stopped w Hw). simpl. eexists tt, _, []. split; [reflexivity |].
  exact H.
Qed.

Ltac wp_step :=
  cbv beta zeta;
  lazymatch goal with
  | |- yields (bind (bind _ _) _) _ => apply wp_assoc
  | |- yields (bind (ret _) _) _ => apply wp_ret
  | |- yields (bind (check_stop _ _) _) _ => apply wp_check_stop
  | |- yields (bind (_type_char _ _) _) _ => apply wp_type_char
  | |- yields (bind (press_release _ _) _) _ => apply wp_press
  | |- yields (bind (uniform _ _ _) _) _ => apply wp_uniform; intros ?
  | |- yields (bind (choice _ _) _) _ => apply wp_choice; intros ?
  | |- yields (bind (sleep _ _) _) _ => apply wp_emit
  | |- yields (bind (_schedule_status _) _) _ => apply wp_emit
  | |- yields (bind (_on_finished _) _) _ => apply wp_emit
  | |- yields (bind (emit _) _) _ => apply wp_emit
  | |- yields (ret _) _ => apply wp_done
  end.

(** The delay of a word is drawn without any action. *)
Lemma wp_word_char_delay {B} (k : Q -> M B) P :
  (forall d, yields (k d) P) -> yields (bind (word_char_delay self w) k) P.
Proof.
  intros H. unfold word_char_delay. repeat wp_step. apply H.
Qed.

(** A character typed without a typo: one key. *)
Lemma wp_type_one_plain {B} d ch (k : unit -> M B) Q :
  (get_typo_rate self <= 0)%Q ->
  yields (k tt) (fun y acts => Q y (AKey (KChar (String ch "")) :: acts)) ->
  yields (bind (type_one ops self w d ch) k) Q.
Proof.
  intros Hrate H. unfold type_one. repeat wp_step.
  apply wp_rand. intros u Hu0 Hu1.
  rewrite (ltb_false_of_le u (get_typo_rate self)) by (now apply Qle_trans with 0%Q).
  simpl andb. cbv iota. repeat wp_step.
  exact H.
Qed.

(** A letter typed when every letter draws a typo: a wrong key, a
    backspace, the letter. *)
Lemma wp_type_one_typo {B} d ch (k : unit -> M B) Q :
  (1 <= get_typo_rate self)%Q ->
  isalpha ops ch = true ->
  (forall wrong,
      yields (k tt)
        (fun y acts =>
           Q y (AKey (KChar wrong) :: AKey KBackspace
                  :: AKey (KChar (String ch "")) :: acts))) ->
  yields (bind (type_one ops self w d ch) k) Q.
Proof.
  intros Hrate Halpha H. unfold type_one. repeat wp_step.
  apply wp_rand. intros u Hu0 Hu1.
  rewrite (ltb_true_of_lt u (get_typo_rate self))
    by (now apply Qlt_le_trans with 1%Q).
  rewrite Halpha. simpl andb. cbv iota.
  unfold _choose_typo_char. repeat wp_step.
  apply wp_rand. intros u' _ _.
  destruct (ltb u' 0.15);
    [| destruct (str_in (lower ops ch) vowels);
       [| destruct (str_in (lower ops ch) consonants)]];
    repeat wp_step;
    (apply wp_rand; intros u3 _ _; repeat wp_step; apply H).
Qed.

Lemma wp_for_chars_plain {B} d word (k : unit -> M B) Q :
  (get_typo_rate self <= 0)%Q ->
  yields (k tt) (fun y acts => Q y (plain_pattern word ++ acts)) ->
  yields (bind (for_chars (type_one ops self w d) word) k) Q.
Proof.
  intros Hrate. revert Q. induction word as [|ch rest IH]; intros Q H; simpl.
  - apply wp_ret. exact H.
  - apply wp_assoc, wp_type_one_plain; trivial. apply IH. exact H.
Qed.

Lemma wp_for_chars_typo {B} d word (k : unit -> M B) Q :
  (1 <= get_typo_rate self)%Q ->
  all_chars (isalpha ops) word = true ->
  (forall typed, typo_pattern word typed ->
     yields (k tt) (fun y acts => Q y (typed ++ acts))) ->
  yields (bind (for_chars (type_one ops self w d) word) k) Q.
Proof.
  intros Hrate. revert Q. induction word as [|ch rest IH]; intros Q Ha H; simpl.
  - apply wp_ret. now apply (H []).
  - simpl in Ha. apply andb_prop in Ha. destruct Ha as [Hch Hrest].
    apply wp_assoc, wp_type_one_typo; trivial. intros wrong.
    apply IH; trivial. intros typed Ht.
    apply (H (AKey (KChar wrong) :: AKey KBackspace
                :: AKey (KChar (String ch "")) :: typed)).
    simpl. now exists wrong, typed.
Qed.

(** The countdown of an undisturbed run performs no action. *)
Lemma wp_tick {B} i (k : unit -> M B) Q :
  yields (k tt) Q -> yields (bind (tick self w i) k) Q.
Proof. intros H. unfold tick. repeat wp_step. exact H. Qed.

Lemma yields_run full_text Q :
  yields (run_body ops self w full_text) Q ->
  exists t, _run ops self w full_text = (Completed, t) /\ Q tt (actions t).
Proof.
  intros H. destruct (H start_counters) as ([] & c' & t & E & HQ).
  exists t. unfold _run. now rewrite E.
Qed.

End Undisturbed.

(** A run that completes ends with the status ["Done!"] and the
    notification, and notified nothing before. *)
Lemma completed_run_shape ops self w full_text t :
  _run ops self w full_text = (Completed, t) ->
  exists t1, t = t1 ++ [Status "Done!"; Finished (stop_callback self)]
             /\ count is_finished t1 = 0.
Proof.
  unfold _run. rewrite run_body_split.
  pose proof (tidy_typing_part ops self w full_text start_counters) as H.
  unfold bind. destruct (typing_part ops self w full_text start_counters)
    as [[[[]| |] c1] t1]; try discriminate.
  unfold _schedule_status, _on_finished, emit. simpl.
  intros E. injection E as <-. now exists t1.
Qed.

Lemma statuses_app (t1 t2 : list event) :
  statuses (t1 ++ t2) = statuses t1 ++ statuses t2.
Proof.
  induction t1 as [|e t1 IH]; simpl; trivial.
  destruct e; simpl; now rewrite ?IH.
Qed.

Ltac run_step :=
  cbv beta zeta;
  lazymatch goal with
  | |- yields (bind (bind _ _) _) _ => apply wp_assoc
  | |- yields (bind (ret _) _) _ => apply wp_ret
  | |- yields (bind (tick _ _ _) _) _ => apply wp_tick; [assumption |]
  | |- yields (bind (check_stop _ _) _) _ =>
      apply wp_check_stop; [assumption |]
  | |- yields (bind (word_char_delay _ _) _) _ =>
      apply wp_word_char_delay; [assumption | intros ?]
  | |- yields (bind (_type_char _ _) _) _ =>
      apply wp_type_char; [assumption |]
  | |- yields (bind (press_release _ _) _) _ => apply wp_press; [assumption |]
  | |- yields (bind (uniform _ _ _) _) _ =>
      apply wp_uniform; [assumption | intros ?]
  | |- yields (bind (choice _ _) _) _ =>
      apply wp_choice; [assumption | intros ?]
  | |- yields (bind (rand _) _) _ =>
      apply wp_rand; [assumption | intros ? ? ?]
  | |- yields (bind (sleep _ _) _) _ => apply wp_emit
  | |- yields (bind (_schedule_status _) _) _ => apply wp_emit
  | |- yields (bind (_on_finished _) _) _ => apply wp_emit
  | |- yields (bind (emit _) _) _ => apply wp_emit
  | |- yields (ret _) _ => apply wp_done
  | |- yields (_on_finished _) _ => apply wp_tail
  | |- yields (bind (if ?b then _ else _) _) _ =>
      let v := eval vm_compute in b in change b with v; cbv iota
  | |- yields (if ?b then _ else _) _ =>
      let v := eval vm_compute in b in change b with v; cbv iota
  end.

Section Scenarios.

Variable self : GlobalTypingSimulator.
Variable w : World.
Hypothesis Hw : nominal w.

Lemma hi_bye_yields (Post : unit -> list action -> Prop) :
  (get_typo_rate self <= 0)%Q ->
  Post tt [AKey (KChar "H"); AKey (KChar "i"); AKey (KChar ".");
        AKey KEnter; APause LineGap;
        AKey (KChar "B"); AKey (KChar "y"); AKey (KChar "e")] ->
  yields (run_body ascii_ops self w ("Hi." ++ nl ++ "Bye")%string) Post.
Proof.
  intros Hrate HQ. unfold run_body.
  change (split newline ("Hi." ++ nl ++ "Bye")%string) with ["Hi."; "Bye"].
  cbn [for_enum range_down countdown].
  repeat run_step.
  unfold do_line at 1. repeat run_step.
  unfold type_line.
  change (words_of ascii_ops "Hi.") with ["Hi."].
  cbn [for_enum]. unfold do_word at 1. repeat run_step.
  apply wp_for_chars_plain; trivial. repeat run_step.
  unfold end_of_line at 1. repeat run_step.
  unfold do_line at 1. repeat run_step.
  unfold type_line.
  change (words_of ascii_ops "Bye") with ["Bye"].
  cbn [for_enum]. unfold do_word at 1. repeat run_step.
  apply wp_for_chars_plain; trivial. repeat run_step.
  unfold end_of_line at 1. repeat run_step.
  exact HQ.
Qed.

(** C4 (as amended): typing ["Hi.\nBye"] with a typo rate of 0, in a run
    nobody stops and whose keys the sink accepts, sends exactly H, i, .,
    ENTER, a line-gap pause, B, y, e: no sentence pause (that pause is
    only drawn between two words of a line), no space, no backspace; the
    run completes, [_on_finished] is called once and the last status is
    ["Done!"]. *)
Theorem hi_bye_scenario :
  (get_typo_rate self <= 0)%Q ->
  fst (_run ascii_ops self w hi_bye) = Completed
  /\ actions (snd (_run ascii_ops self w hi_bye))
     = [AKey (KChar "H"); AKey (KChar "i"); AKey (KChar ".");
        AKey KEnter; APause LineGap;
        AKey (KChar "B"); AKey (KChar "y"); AKey (KChar "e")]
  /\ count is_finished (snd (_run ascii_ops self w hi_bye)) = 1
  /\ last (statuses (snd (_run ascii_ops self w hi_bye))) "" = "Done!".
Proof.
  intros Hrate.
  destruct (yields_run ascii_ops self w hi_bye
              (fun _ acts =>
                 acts = [AKey (KChar "H"); AKey (KChar "i"); AKey (KChar ".");
                         AKey KEnter; APause LineGap;
                         AKey (KChar "B"); AKey (KChar "y"); AKey (KChar "e")]))
    as (t & E & Hacts).
  { apply hi_bye_yields; trivial. }
  rewrite E. simpl fst. simpl snd.
  destruct (completed_run_shape _ _ _ _ _ E) as (t1 & -> & H0).
  repeat split; trivial.
  - rewrite count_app, H0. reflexivity.
  - rewrite statuses_app. simpl. apply last_last.
Qed.

Lemma cat_yields (Post : unit -> list action -> Prop) :
  (1 <= get_typo_rate self)%Q ->
  (forall typed, typo_pattern "cat" typed -> Post tt typed) ->
  yields (run_body ascii_ops self w "cat") Post.
Proof.
  intros Hrate HQ. unfold run_body.
  change (split newline "cat") with ["cat"].
  cbn [for_enum range_down countdown].
  repeat run_step.
  unfold do_line at 1. repeat run_step.
  unfold type_line.
  change (words_of ascii_ops "cat") with ["cat"].
  cbn [for_enum]. unfold do_word at 1. repeat run_step.
  apply wp_for_chars_typo; trivial. intros typed Ht. repeat run_step.
  unfold end_of_line at 1. repeat run_step.
  rewrite app_nil_r. now apply HQ.
Qed.

(** C3 (as amended): typing ["cat"] with a typo rate of 1.0, in a run
    nobody stops and whose keys the sink accepts, sends for each of the
    three letters a wrong-letter key, a backspace and the letter: 6
    character keys and 3 backspaces, 9 keystrokes in all. *)
Theorem cat_scenario :
  (1 <= get_typo_rate self)%Q ->
  exists w1 w2 w3,
    fst (_run ascii_ops self w "cat") = Completed
    /\ actions (snd (_run ascii_ops self w "cat"))
       = [AKey (KChar w1); AKey KBackspace; AKey (KChar "c");
          AKey (KChar w2); AKey KBackspace; AKey (KChar "a");
          AKey (KChar w3); AKey KBackspace; AKey (KChar "t")]
    /\ char_keys (actions (snd (_run ascii_ops self w "cat"))) = 6
    /\ backspaces (actions (snd (_run ascii_ops self w "cat"))) = 3.
Proof.
  intros Hrate.
  destruct (yields_run ascii_ops self w "cat" (fun _ => typo_pattern "cat"))
    as (t & E & Hacts).
  { apply cat_yields; trivial. }
  rewrite E. simpl fst. simpl snd.
  simpl in Hacts.
  destruct Hacts as (w1 & a1 & -> & w2 & a2 & -> & w3 & a3 & -> & ->).
  exists w1, w2, w3. repeat split.
Qed.

End Scenarios.

Lemma calm_is_nominal : nominal calm.
Proof.
  split.
  - reflexivity.
  - reflexivity.
  - intros n. split; [discriminate | reflexivity].
Qed.

(** The two-line scenario in the calm world. *)
Lemma hi_bye_scenario_witness :
  nominal calm /\ (get_typo_rate (with_rates 0 0) <= 0)%Q
  /\ actions (snd (_run ascii_ops (with_rates 0 0) calm hi_bye))
     = [AKey (KChar "H"); AKey (KChar "i"); AKey (KChar ".");
        AKey KEnter; APause LineGap;
        AKey (KChar "B"); AKey (KChar "y"); AKey (KChar "e")].
Proof.
  split; [exact calm_is_nominal |]. split; [discriminate |].
  apply (hi_bye_scenario (with_rates 0 0) calm calm_is_nominal).
  discriminate.
Defined.

(** The sentence pause the specification lists after the full stop is
    not there. *)
Lemma hi_bye_has_no_sentence_pause :
  actions (snd (_run ascii_ops (with_rates 0 0) calm hi_bye)) <> hi_bye_listed.
Proof. vm_compute. discriminate. Qed.

(** The one-word scenario in the calm world. *)
Lemma cat_scenario_witness :
  nominal calm /\ (1 <= get_typo_rate (with_rates 1.0 0.08))%Q
  /\ exists w1 w2 w3,
       actions (snd (_run ascii_ops (with_rates 1.0 0.08) calm "cat"))
       = [AKey (KChar w1); AKey KBackspace; AKey (KChar "c");
          AKey (KChar w2); AKey KBackspace; AKey (KChar "a");
          AKey (KChar w3); AKey KBackspace; AKey (KChar "t")].
Proof.
  split; [exact calm_is_nominal |]. split; [discriminate |].
  destruct (cat_scenario (with_rates 1.0 0.08) calm calm_is_nominal)
    as (w1 & w2 & w3 & _ & H & _).
  - discriminate.
  - now exists w1, w2, w3.
Defined.

(** The character keys of the ["cat"] scenario number 6, not 9. *)
Lemma cat_has_six_character_keys :
  ~ (char_keys (actions (snd (_run ascii_ops (with_rates 1.0 0.08) calm "cat")))
     = 9
     /\ backspaces
          (actions (snd (_run ascii_ops (with_rates 1.0 0.08) calm "cat")))
        = 3).
Proof. vm_compute. intros [H _]. discriminate. Qed.

(* ================================================================== *)
(** ** Delays *)

Lemma pymax_lower (a b : Q) : (a <= pymax a b)%Q.
Proof.
  unfold pymax. destruct (ltb a b) eqn:E.
  - apply Qlt_le_weak. now apply ltb_true_iff.
  - apply Qle_refl.
Qed.

Lemma sleep_time_of_lower (d u : Q) : (0.01 <= sleep_time_of d u)%Q.
Proof. apply pymax_lower. Qed.

Lemma char_delay_of_cases self m :
  ((0 < effective_cps_of self m)%Q
   /\ char_delay_of self m = (1 / effective_cps_of self m)%Q)
  \/ ((effective_cps_of self m <= 0)%Q /\ char_delay_of self m = 0.12%Q).
Proof.
  unfold char_delay_of, effective_cps_of. cbv zeta.
  destruct (ltb 0 (inject_Z (Z.max 1 (get_wpm self) * 5) / 60 * m)) eqn:E.
  - left. split; trivial. now apply ltb_true_iff.
  - right. split; trivial. apply Qnot_lt_le. intros H.
    apply ltb_true_iff in H. congruence.
Qed.

Lemma char_delay_of_pos self m : (0 < char_delay_of self m)%Q.
Proof.
  destruct (char_delay_of_cases self m) as [[H ->] | [_ ->]].
  - unfold Qdiv. rewrite Qmult_1_l. now apply Qinv_lt_0_compat.
  - reflexivity.
Qed.

Lemma each_ret {A} P (a : A) : each P (ret a).
Proof. intros c. constructor. Qed.

Lemma each_bind {A B} P (m : M A) (k : A -> M B) :
  each P m -> (forall a, each P (k a)) -> each P (bind m k).
Proof.
  intros Hm Hk c. specialize (Hm c). unfold bind.
  destruct (m c) as [[[a| |] c1] t1]; trivial.
  specialize (Hk a c1). destruct (k a c1) as [[r c2] t2]. simpl in *.
  apply Forall_app. now split.
Qed.

Lemma each_emit P (e : event) : P e -> each P (emit e).
Proof. intros H c. simpl. now constructor. Qed.

Lemma each_for_chars P (body : ascii -> M unit) word :
  (forall ch, each P (body ch)) -> each P (for_chars body word).
Proof.
  intros Hb. induction word as [|ch rest IH]; simpl.
  - apply each_ret.
  - apply each_bind; auto.
Qed.

Lemma each_for_enum {A} P (body : nat -> A -> M unit) l :
  (forall i x, each P (body i x)) -> forall i, each P (for_enum body i l).
Proof.
  intros Hb. induction l as [|x rest IH]; intros i; simpl.
  - apply each_ret.
  - apply each_bind; auto.
Qed.

Lemma each_press P w k :
  (forall b, P (Press k b)) -> each P (press_release w k).
Proof.
  intros H c. unfold press_release.
  destruct (tap w (taps c) k); simpl; repeat constructor; apply H.
Qed.

Lemma each_type_char P w ch :
  (forall b, P (Press (KChar ch) b)) -> each P (_type_char w ch).
Proof.
  intros H c. unfold _type_char, try_pass, press_release.
  destruct (tap w (taps c) (KChar ch)); simpl; repeat constructor; apply H.
Qed.

Lemma each_silent {A} P (m : M A) :
  (forall c, snd (m c) = []) -> each P m.
Proof. intros H c. rewrite H. constructor. Qed.

Ltac event_ok :=
  first [ exact I | apply sleep_time_of_lower | split; reflexivity
        | reflexivity ].

Ltac each_step :=
  match goal with
  | |- each _ (bind _ _) => apply each_bind; [| intros ?]
  | |- each _ (if ?b then _ else _) => destruct b
  | |- each _ (ret _) => apply each_ret
  | |- each _ (press_release _ _) => apply each_press; intros ?; event_ok
  | |- each _ (_type_char _ _) => apply each_type_char; intros ?; event_ok
  | |- each _ (sleep _ _) => apply each_emit; event_ok
  | |- each _ (_schedule_status _) => apply each_emit; event_ok
  | |- each _ (_on_finished _) => apply each_emit; event_ok
  | |- each _ (emit _) => apply each_emit; event_ok
  | |- each _ (for_chars _ _) => apply each_for_chars; intros ?
  | |- each _ (for_enum _ _ _) => apply each_for_enum; intros ? ?
  | |- each _ (rand _) => apply each_silent; reflexivity
  | |- each _ (poll_stop _) => apply each_silent; reflexivity
  | |- each _ (choice _ _) => apply each_silent; reflexivity
  | |- each _ py_return => apply each_silent; reflexivity
  end.

Lemma each_bind_with {A B} P (R : A -> Prop) (m : M A) (k : A -> M B) :
  returns R m -> each P m -> (forall a, R a -> each P (k a)) ->
  each P (bind m k).
Proof.
  intros HR Hm Hk c. specialize (HR c). specialize (Hm c). unfold bind.
  destruct (m c) as [[[a| |] c1] t1]; trivial.
  specialize (Hk a HR c1). destruct (k a c1) as [[r c2] t2]. simpl in *.
  apply Forall_app. now split.
Qed.

Section Sleeps.

Variable ops : StrOps.
Variable self : GlobalTypingSimulator.
Variable w : World.

Hypothesis draws_in_unit_interval : unit_interval_draws w.
Hypothesis durations : durations_in_range self.

Lemma returns_rand :
  returns (fun u => (0 <= u /\ u < 1)%Q) (rand w).
Proof. intros c. apply draws_in_unit_interval. Qed.

Lemma returns_uniform a b :
  returns (fun x => exists u, (0 <= u /\ u < 1)%Q /\ x = uniform_of a b u)
    (uniform w a b).
Proof.
  intros c. unfold uniform, bind, rand, ret. simpl.
  exists (random w (draws c)). split; [apply draws_in_unit_interval | trivial].
Qed.

(** Lines 112-117 give the delay of the formula, whatever is drawn. *)
Lemma returns_word_char_delay :
  returns (fun d => exists m, d = char_delay_of self m)
    (word_char_delay self w).
Proof.
  intros c. unfold word_char_delay, uniform, bind, rand, ret. simpl.
  now eexists.
Qed.

Lemma typo_hold_ok m u :
  (0 <= u /\ u < 1)%Q ->
  sleep_ok self (Sleep TypoHold (char_delay_of self m * uniform_of 0.8 1.6 u)).
Proof.
  intros [H0 H1]. pose proof (char_delay_of_pos self m) as Hd.
  simpl. split.
  - unfold uniform_of. nra.
  - exists m, (uniform_of 0.8 1.6 u). split; trivial.
    unfold uniform_of. split; lra.
Qed.

Lemma correction_sleep_ok u :
  (0 <= u /\ u < 1)%Q ->
  sleep_ok self
    (Sleep CorrectionDelay
       (get_mistake_correction_delay self * uniform_of 0.8 1.2 u)).
Proof.
  intros [H0 H1]. destruct durations as [Hc _ _].
  simpl. unfold uniform_of. split; [nra |]. split; intros H.
  - apply Qmult_integral in H. destruct H as [H | H]; trivial. lra.
  - rewrite H. ring.
Qed.

Lemma char_sleep_ok m r :
  sleep_ok self (Sleep CharDelay (sleep_time_of (char_delay_of self m) r)).
Proof.
  simpl. split; [apply sleep_time_of_lower | now exists m, r].
Qed.

Ltac drawn :=
  match goal with
  | |- each _ (bind (uniform _ _ _) _) =>
      eapply each_bind_with;
      [ apply returns_uniform | apply each_silent; reflexivity
      | intros ? (? & [? ?] & ->) ]
  | |- each _ (bind (word_char_delay _ _) _) =>
      eapply each_bind_with;
      [ apply returns_word_char_delay | apply each_silent; reflexivity
      | intros ? (? & ->) ]
  | |- each _ (bind (rand _) _) =>
      eapply each_bind_with;
      [ apply returns_rand | apply each_silent; reflexivity
      | intros ? [? ?] ]
  end.

Ltac slept :=
  first [ apply typo_hold_ok; now split
        | apply correction_sleep_ok; now split
        | apply char_sleep_ok
        | exact I
        | simpl; unfold uniform_of; destruct durations; nra ].

Ltac sleeps_step :=
  first
    [ drawn
    | match goal with
      | |- each _ (bind _ _) => apply each_bind; [| intros ?]
      | |- each _ (if ?b then _ else _) => destruct b
      | |- each _ (ret _) => apply each_ret
      | |- each _ (press_release _ _) => apply each_press; intros ?; slept
      | |- each _ (_type_char _ _) => apply each_type_char; intros ?; slept
      | |- each _ (sleep _ _) => apply each_emit; slept
      | |- each _ (_schedule_status _) => apply each_emit; slept
      | |- each _ (_on_finished _) => apply each_emit; slept
      | |- each _ (emit _) => apply each_emit; slept
      | |- each _ (for_chars _ _) => apply each_for_chars; intros ?
      | |- each _ (for_enum _ _ _) => apply each_for_enum; intros ? ?
      | |- each _ (rand _) => apply each_silent; reflexivity
      | |- each _ (poll_stop _) => apply each_silent; reflexivity
      | |- each _ (choice _ _) => apply each_silent; reflexivity
      | |- each _ py_return => apply each_silent; reflexivity
      end ].

Lemma sleeps_run_body full_text :
  each (sleep_ok self) (run_body ops self w full_text).
Proof.
  unfold run_body, tick, do_line, end_of_line, type_line, do_word,
    inter_word, type_one, _choose_typo_char, check_stop.
  repeat sleeps_step.
Qed.

End Sleeps.

(** C5 (as amended): for every configuration whose durations are as the
    sliders give them (any [wordsPerMinute], clamped to 1 from below, and
    any [speedVariation]) and draws of [random()] in [0, 1): the delay
    [char_delay] that lines 112-117 compute for a word is that of the
    formula and strictly positive, [1 / effective_cps] when that rate is
    positive, so nothing is divided by zero, and 0.12 s otherwise; and in
    every run the sleep after a character is at least 0.01 s and computed
    from such a delay, the hold after a wrong character is such a delay
    times a factor in [0.8, 1.6) and positive, the sleep before a
    correction is not negative, and zero exactly when the correction delay
    is set to 0, and every other sleep is positive: no sleep is
    negative. *)
Theorem char_delay_positive (ops : StrOps) (self : GlobalTypingSimulator)
  (w : World) :
  unit_interval_draws w ->
  durations_in_range self ->
  (forall c, exists m,
      fst (fst (word_char_delay self w c)) = Val (char_delay_of self m))
  /\ (forall m,
        (0 < char_delay_of self m)%Q
        /\ (((0 < effective_cps_of self m)%Q
             /\ char_delay_of self m = (1 / effective_cps_of self m)%Q)
            \/ ((effective_cps_of self m <= 0)%Q
                /\ char_delay_of self m = 0.12%Q)))
  /\ (forall full_text,
        Forall (sleep_ok self) (snd (_run ops self w full_text))).
Proof.
  intros Hdraws Hrange. split; [| split].
  - intros c. pose proof (returns_word_char_delay self w c) as H.
    destruct (word_char_delay self w c) as [[[d| |] c1] t1] eqn:E.
    + destruct H as (m & ->). now exists m.
    + unfold word_char_delay, uniform, bind, rand, ret in E. discriminate E.
    + unfold word_char_delay, uniform, bind, rand, ret in E. discriminate E.
  - intros m. split; [apply char_delay_of_pos | apply char_delay_of_cases].
  - intros full_text.
    pose proof (sleeps_run_body ops self w Hdraws Hrange full_text
                  start_counters) as H.
    unfold _run.
    now destruct (run_body ops self w full_text start_counters)
      as [[[[]| |] c1] t1].
Qed.

Lemma low_draws_in_unit_interval : unit_interval_draws low_draws.
Proof. intros n. split; simpl; lra. Qed.

Lemma instant_correction_in_range : durations_in_range instant_correction.
Proof. split; simpl; lra. Qed.

(** The typo rate at its top, the correction delay at 0 and draws of one
    fifth: every letter of ["a"] is mistyped and corrected, and the sleeps
    of the run are as stated. *)
Lemma char_delay_positive_witness :
  unit_interval_draws low_draws
  /\ durations_in_range instant_correction
  /\ Forall (sleep_ok instant_correction)
       (snd (_run ascii_ops instant_correction low_draws "a")).
Proof.
  split; [exact low_draws_in_unit_interval |].
  split; [exact instant_correction_in_range |].
  apply (char_delay_positive ascii_ops instant_correction low_draws
           low_draws_in_unit_interval instant_correction_in_range).
Defined.

(** The specification has no zero sleep occur.  With the correction delay
    set to 0, a value of its slider, the sleep before the correction of a
    typo lasts 0 s. *)
Lemma zero_correction_delay_sleeps_zero :
  Exists is_zero_sleep
    (snd (_run ascii_ops instant_correction low_draws "a")).
Proof.
  apply Exists_exists.
  exists (Sleep CorrectionDelay (0 * uniform_of 0.8 1.2 0.2)). split.
  - vm_compute. repeat (first [now left | right]).
  - reflexivity.
Qed.

(* ================================================================== *)
(** ** Starting a session *)

Lemma running_after_start full_text rt : running (start full_text rt) = true.
Proof. unfold start. destruct (running rt) eqn:E; trivial. Qed.

Lemma start_noop_when_running full_text rt :
  running rt = true -> start full_text rt = rt.
Proof. intros H. unfold start. now rewrite H. Qed.

Lemma running_after_stop rt : running (stop rt) = running rt.
Proof. reflexivity. Qed.

(** C6: a [start] that follows a [start] whose thread is still alive
    changes nothing, whether or not [stop] was requested in between: no
    second thread is created, the stop flag is not cleared, and of two
    successive starts of an idle simulator only the first text is ever
    run. *)
Theorem second_start_is_noop (rt : Runtime) (text1 text2 : string) :
  start text2 (start text1 rt) = start text1 rt
  /\ start text2 (stop (start text1 rt)) = stop (start text1 rt)
  /\ started (start text2 (start text1 idle)) = [text1].
Proof.
  split; [| split].
  - apply start_noop_when_running, running_after_start.
  - apply start_noop_when_running. rewrite running_after_stop.
    apply running_after_start.
  - reflexivity.
Qed.

(** Once the thread is over, [start] does begin a second session. *)
Lemma start_after_exit text1 text2 :
  started (start text2 (thread_exit (start text1 idle))) = [text1; text2].
Proof. reflexivity. Qed.

Lemma all_chars_rstrip (p q : ascii -> bool) (s : string) :
  all_chars q s = true -> all_chars q (rstrip_by p s) = true.
Proof.
  induction s as [|c s IH]; simpl; trivial.
  intros H. apply andb_prop in H. destruct H as [Hc Hs].
  specialize (IH Hs). destruct (rstrip_by p s) as [|c' r].
  - destruct (p c); simpl; trivial. now rewrite Hc.
  - simpl in *. now rewrite Hc, IH.
Qed.

Lemma lstrip_all (p : ascii -> bool) (s : string) :
  all_chars p s = true -> lstrip_by p s = "".
Proof.
  induction s as [|c s IH]; simpl; trivial.
  intros H. apply andb_prop in H. destruct H as [-> Hs]. auto.
Qed.

Lemma strip_whitespace_only ops (s : string) :
  all_chars (isspace ops) s = true -> strip ops s = "".
Proof. intros H. unfold strip. now rewrite lstrip_all. Qed.

(** C7: when the text box holds nothing but whitespace (or nothing at
    all), [start_typing] returns at once: the simulator is left as it
    was, so no thread is started and no key is ever sent; the controls
    and the status label are untouched, and the user is told through a
    message box. *)
Theorem blank_text_is_rejected (ops : StrOps) (content : string) (g : Gui) :
  all_chars (isspace ops) content = true ->
  simulator (start_typing ops content g) = simulator g
  /\ started (simulator (start_typing ops content g)) = started (simulator g)
  /\ status_label (start_typing ops content g) = status_label g
  /\ controls_enabled (start_typing ops content g) = controls_enabled g
  /\ panic_window (start_typing ops content g) = panic_window g
  /\ dialogs (start_typing ops content g)
     = dialogs g ++ [("No text", "Please provide some text to type.")].
Proof.
  intros H. unfold start_typing.
  rewrite (strip_whitespace_only ops (rstrip_newlines content))
    by (now apply all_chars_rstrip).
  simpl. repeat split.
Qed.

(** Spaces, a tab and the newline the text box appends: rejected. *)
Lemma blank_text_is_rejected_witness :
  all_chars (isspace ascii_ops)
    (String space (String (ascii_of_nat 9) (String space nl))) = true
  /\ started (simulator
       (start_typing ascii_ops
          (String space (String (ascii_of_nat 9) (String space nl)))
          fresh_gui)) = [].
Proof.
  split; [reflexivity |].
  apply (blank_text_is_rejected ascii_ops
           (String space (String (ascii_of_nat 9) (String space nl)))
           fresh_gui).
  reflexivity.
Defined.

(** The guard lives in the handler: [start] itself takes any text. *)
Lemma start_itself_takes_blank_text :
  started (start " " idle) = [" "].
Proof. reflexivity. Qed.

(* ================================================================== *)
(** ** The boundary between two words *)







(** A draw in [[0, 1)] lands [uniform_of lo hi] in [[lo, hi)]. *)
Lemma uniform_of_range (lo hi u : Q) :
  (lo < hi)%Q -> (0 <= u)%Q -> (u < 1)%Q ->
  (lo <= uniform_of lo hi u)%Q /\ (uniform_of lo hi u < hi)%Q.
Proof.
  intros Hlh H0 H1. unfold uniform_of.
  assert (Hd : (0 < hi - lo)%Q) by (now apply (Qlt_minus_iff lo hi)).
  split.
  - rewrite <- (Qplus_0_r lo) at 1. apply Qplus_le_r.
    apply Qmult_le_0_compat; trivial. now apply Qlt_le_weak.
  - apply Qlt_le_trans with (lo + (hi - lo) * 1)%Q.
    + apply Qplus_lt_r. now apply Qmult_lt_l.
    + apply Qle_lteq. right. ring.
Qed.

Lemma count_zero (p : event -> bool) (t : list event) :
  Forall (fun e => p e = false) t -> count p t = 0.
Proof.
  unfold count. induction 1 as [|e t He _ IH]; simpl; trivial.
  now rewrite He.
Qed.

Lemma each_quiet_type_one ops self w d ch :
  each quiet (type_one ops self w d ch).
Proof.
  unfold type_one, _choose_typo_char, check_stop, uniform.
  repeat each_step.
Qed.




(* ================================================================== *)
(** ** Consecutive spaces *)

Lemma at_most_of_each {A} (m : M A) : each no_space m -> spaces_at_most 0 m.
Proof. intros H c. rewrite count_zero; [apply Nat.le_refl | exact (H c)]. Qed.

Lemma each_no_space_of_quiet {A} (m : M A) : each quiet m -> each no_space m.
Proof.
  intros H c. eapply Forall_impl; [| exact (H c)]. now intros e [H1 _].
Qed.

Lemma at_most_bind {A B} a b (m : M A) (k : A -> M B) :
  spaces_at_most a m -> (forall x, spaces_at_most b (k x)) ->
  spaces_at_most (a + b) (bind m k).
Proof.
  intros Hm Hk c. specialize (Hm c). unfold bind.
  destruct (m c) as [[[x| |] c1] t1]; simpl in *; try lia.
  specialize (Hk x c1). destruct (k x c1) as [[r c2] t2]. simpl in *.
  rewrite count_app. lia.
Qed.

Lemma at_most_weaken {A} a b (m : M A) :
  a <= b -> spaces_at_most a m -> spaces_at_most b m.
Proof. intros Hab H c. specialize (H c). lia. Qed.

Lemma at_most_press w k : spaces_at_most 1 (press_release w k).
Proof.
  intros c. unfold press_release.
  destruct (tap w (taps c) k); destruct k; simpl; unfold count; simpl; lia.
Qed.

Lemma at_most_inter_word self w word :
  spaces_at_most 1 (inter_word self w word).
Proof.
  unfold inter_word.
  apply (at_most_bind 0 1).
  { apply at_most_of_each. unfold check_stop. repeat each_step. }
  intros _. apply (at_most_bind 1 0); [apply at_most_press |].
  intros _. cbv zeta. apply at_most_of_each. unfold uniform.
  repeat each_step.
Qed.

Lemma at_most_do_word ops self w words i word :
  spaces_at_most
    (if (i <? List.length words - 1)%nat && truthy word then 1 else 0)
    (do_word ops self w words i word).
Proof.
  unfold do_word.
  apply (at_most_bind 0 _).
  { apply at_most_of_each. unfold check_stop. repeat each_step. }
  intros _. destruct (truthy word); simpl negb; cbv iota.
  - rewrite andb_true_r.
    apply (at_most_bind 0 _).
    { apply at_most_of_each. unfold word_char_delay, uniform.
      repeat each_step. }
    intros d. apply (at_most_bind 0 _).
    { apply at_most_of_each, each_no_space_of_quiet, each_for_chars.
      intros ch. apply each_quiet_type_one. }
    intros _. destruct (i <? List.length words - 1)%nat.
    + apply at_most_inter_word.
    + apply at_most_of_each. apply each_ret.
  - rewrite andb_false_r. apply at_most_of_each. apply each_ret.
Qed.

Lemma at_most_words ops self w words :
  forall suffix i,
    i + List.length suffix = List.length words ->
    spaces_at_most (boundaries suffix)
      (for_enum (do_word ops self w words) i suffix).
Proof.
  induction suffix as [|word rest IH]; intros i Hi; simpl.
  - apply at_most_of_each. apply each_ret.
  - apply at_most_bind.
    + eapply at_most_weaken; [| apply at_most_do_word].
      simpl in Hi. destruct rest as [|next rest'].
      * simpl in Hi.
        replace (i <? List.length words - 1)%nat with false; [simpl; lia |].
        symmetry. apply Nat.ltb_ge. lia.
      * destruct ((i <? List.length words - 1)%nat && truthy word) eqn:E.
        -- apply andb_prop in E. destruct E as [_ ->]. lia.
        -- lia.
    + intros _. apply IH. simpl in Hi. lia.
Qed.

Lemma split_nonempty sep s : split sep s <> [].
Proof.
  destruct s as [|c s']; simpl; [discriminate |].
  destruct (Ascii.eqb c sep); [discriminate |].
  destruct (split sep s'); discriminate.
Qed.

Lemma boundaries_le_headed words : boundaries words <= boundaries_headed words.
Proof.
  destruct words as [|word rest]; simpl; trivial.
  destruct rest; [lia |]. destruct (truthy word); lia.
Qed.

(** The places where a space is sent are at most as many as the runs of
    spaces: the first empty word after a word takes the space of the run,
    the others of the run are skipped. *)
Lemma boundaries_split_runs (s : string) :
  boundaries (split space s) <= space_runs_from true s
  /\ boundaries_headed (split space s) <= space_runs_from false s.
Proof.
  induction s as [|c s' [IHt IHf]]; simpl; [lia |].
  destruct (Ascii.eqb c space) eqn:E.
  - pose proof (split_nonempty space s') as Hne.
    destruct (split space s') as [|w0 ws]; [congruence |].
    simpl boundaries. simpl boundaries_headed. simpl in IHt. split; lia.
  - pose proof (split_nonempty space s') as Hne.
    destruct (split space s') as [|w0 ws]; [congruence |].
    simpl in *. destruct ws; simpl in *; split; lia.
Qed.

Lemma split_spaces n v :
  split space (spaces n ++ v)%string = repeat "" n ++ split space v.
Proof. induction n as [|k IH]; simpl; trivial. now rewrite IH. Qed.

(** A word followed by [n + 1] spaces: the word, then [n] empty words. *)
Lemma split_after_run u v n :
  all_chars not_space u = true ->
  split space (u ++ spaces (S n) ++ v)%string
  = u :: repeat "" n ++ split space v.
Proof.
  induction u as [|c u' IH]; intros Hu.
  - simpl. now rewrite split_spaces.
  - simpl in Hu. apply andb_prop in Hu. destruct Hu as [Hc Hu].
    unfold not_space in Hc. apply negb_true_iff in Hc.
    change ((String c u' ++ spaces (S n) ++ v)%string)
      with (String c (u' ++ spaces (S n) ++ v)%string).
    cbn [split]. rewrite Hc, (IH Hu). reflexivity.
Qed.

(** C9: an empty word, as the split on single spaces produces for every
    space that follows a space, does nothing but the check of the stop
    flag: it sends no key, draws nothing and takes no pause.  So a line
    sends at most as many SPACE keys as it has runs of consecutive spaces,
    one for a run of any length; a word followed by [n + 1] spaces is
    followed by [n] such empty words. *)
Theorem empty_words_are_skipped (ops : StrOps) (self : GlobalTypingSimulator)
  (w : World) :
  (forall words i c,
      do_word ops self w words i "" c
      = if is_set w (polls c)
        then (Returned,
              {| polls := S (polls c); draws := draws c; taps := taps c |},
              [Finished (stop_callback self)])
        else (Val tt,
              {| polls := S (polls c); draws := draws c; taps := taps c |},
              []))
  /\ (forall line c,
        count is_space_press (snd (type_line ops self w line c))
        <= space_runs line)
  /\ (forall u v n,
        all_chars not_space u = true ->
        split space (u ++ spaces (S n) ++ v)%string
        = u :: repeat "" n ++ split space v).
Proof.
  split; [| split].
  - intros words i c. unfold do_word, check_stop, bind, poll_stop,
      _on_finished, py_return, emit, ret. simpl.
    now destruct (is_set w (polls c)).
  - intros line c. unfold type_line.
    eapply Nat.le_trans; [apply (at_most_words ops self w); reflexivity |].
    unfold words_of. destruct (truthy (strip ops line)).
    + eapply Nat.le_trans; [apply boundaries_le_headed |].
      apply boundaries_split_runs.
    + simpl. lia.
  - intros u v n Hu. now apply split_after_run.
Qed.

(** Two spaces between two words: one SPACE key. *)
Example two_spaces_one_key :
  actions (snd (type_line ascii_ops (with_rates 0 0) calm "a  b" start_counters))
  = [AKey (KChar "a"); AKey KSpace; APause WordGap; AKey (KChar "b")].
Proof. reflexivity. Qed.

(* ================================================================== *)
(** ** The wrong character of a typo *)

Lemma vowel_is_lower i :
  i < 5 -> all_chars is_lower (char_at vowels i) = true
           /\ char_at vowels i <> "".
Proof.
  intros H. do 5 (destruct i as [|i]; [split; [reflexivity | discriminate] |]).
  lia.
Qed.

Lemma consonant_is_lower i :
  i < 21 -> all_chars is_lower (char_at consonants i) = true
            /\ char_at consonants i <> "".
Proof.
  intros H. do 21 (destruct i as [|i]; [split; [reflexivity | discriminate] |]).
  lia.
Qed.

Lemma upper_is_vowel_or_consonant ch :
  is_upper ch = true ->
  str_in (ascii_lower ch) vowels = true
  \/ (str_in (ascii_lower ch) vowels = false
      /\ str_in (ascii_lower ch) consonants = true).
Proof.
  destruct ch as [[] [] [] [] [] [] [] []]; intros H;
    try discriminate H; vm_compute; auto.
Qed.

Lemma letter_is_vowel_or_consonant ch :
  ascii_isalpha ch = true ->
  str_in (ascii_lower ch) vowels = true
  \/ str_in (ascii_lower ch) consonants = true.
Proof.
  destruct ch as [[] [] [] [] [] [] [] []]; intros H;
    try discriminate H; vm_compute; auto.
Qed.

Lemma ascii_letter_pick i :
  i < 52 ->
  exists l, char_at ascii_letters i = String l ""
            /\ ascii_isalpha l = true.
Proof.
  intros H.
  do 52 (destruct i as [|i]; [eexists; split; reflexivity |]).
  lia.
Qed.

(** What the last line of [_choose_typo_char] returns: an ASCII letter,
    for a character that is none, hence never the character itself. *)
Lemma ascii_letters_choice ops w ch c :
  lowers_ascii ops ->
  uses_ascii_letters ops w ch c = true ->
  exists l,
    fst (fst (_choose_typo_char ops w ch c)) = Val (String l "")
    /\ ascii_isalpha l = true
    /\ ascii_isalpha ch = false
    /\ l <> ch.
Proof.
  intros Hops Huse. unfold uses_ascii_letters in Huse.
  apply andb_prop in Huse. destruct Huse as [Huse Hc].
  apply andb_prop in Huse. destruct Huse as [Hu Hv].
  apply negb_true_iff in Hu, Hv, Hc.
  destruct (ascii_letter_pick (randbits w (S (draws c)) mod 52))
    as (l & Hpick & Hl).
  { apply Nat.mod_upper_bound. discriminate. }
  assert (Hch : ascii_isalpha ch = false).
  { destruct (ascii_isalpha ch) eqn:E; trivial.
    rewrite (Hops ch E) in Hv, Hc.
    destruct (letter_is_vowel_or_consonant ch E); congruence. }
  exists l. split; [| split; [exact Hl | split; [exact Hch | congruence]]].
  unfold _choose_typo_char, bind, rand, choice, ret.
  cbn -[Nat.modulo ltb str_in char_at vowels consonants ascii_letters].
  rewrite Hu.
  cbn -[Nat.modulo ltb str_in char_at vowels consonants ascii_letters].
  rewrite Hv, Hc.
  cbn -[Nat.modulo ltb str_in char_at vowels consonants ascii_letters].
  change (String.length ascii_letters) with 52. now rewrite Hpick.
Qed.

(** C10 (as amended): the wrong character of a typo can be the intended
    character.  There are draws for which [_choose_typo_char] returns the
    very vowel, and the very consonant, it was given, and a run that sends
    a, BACKSPACE, a for the text ["a"]; for an upper-case letter the choice
    among the vowels or the consonants is a lower-case letter.  The choice
    among [ascii_letters] is different: it is reached only for a character
    that is no ASCII letter, and so it never returns the intended
    character. *)
Theorem typo_may_repeat_the_letter :
  (exists w,
      (forall c, fst (fst (_choose_typo_char ascii_ops w "a" c)) = Val "a")
      /\ (forall c, fst (fst (_choose_typo_char ascii_ops w "b" c)) = Val "b")
      /\ actions (snd (_run ascii_ops (with_rates 1.0 0.08) w "a"))
         = [AKey (KChar "a"); AKey KBackspace; AKey (KChar "a")])
  /\ (forall ops w ch c,
        lowers_ascii ops ->
        uses_ascii_letters ops w ch c = true ->
        exists l,
          fst (fst (_choose_typo_char ops w ch c)) = Val (String l "")
          /\ ascii_isalpha l = true
          /\ ascii_isalpha ch = false
          /\ l <> ch)
  /\ (forall w ch c,
        is_upper ch = true ->
        ltb (random w (draws c)) 0.15 = false ->
        exists s, fst (fst (_choose_typo_char ascii_ops w ch c)) = Val s
                  /\ all_chars is_lower s = true
                  /\ s <> "" /\ s <> String ch "").
Proof.
  split; [| split].
  - exists calm. repeat split.
  - exact ascii_letters_choice.
  - intros w ch c Hup Hdraw.
    unfold _choose_typo_char, bind, rand, choice, ret. simpl.
    rewrite Hdraw. simpl lower.
    assert (Hne : forall s, all_chars is_lower s = true -> s <> "" ->
                            s <> String ch "").
    { intros s Hs _ ->. simpl in Hs. rewrite andb_true_r in Hs.
      unfold is_upper, is_lower in *.
      apply andb_prop in Hup, Hs. destruct Hup as [_ Hup], Hs as [Hs _].
      apply Nat.leb_le in Hup, Hs. lia. }
    destruct (upper_is_vowel_or_consonant ch Hup) as [-> | [-> ->]]; simpl.
    + destruct (vowel_is_lower (randbits w (S (draws c)) mod 5)) as [H1 H2].
      { apply Nat.mod_upper_bound. discriminate. }
      eexists. split; [reflexivity |]. auto.
    + destruct (consonant_is_lower (randbits w (S (draws c)) mod 21))
        as [H1 H2].
      { apply Nat.mod_upper_bound. discriminate. }
      eexists. split; [reflexivity |]. auto.
Qed.

(** The specification has the choice among [ascii_letters] include the
    intended character.  It does not: no character, draw and index make
    the last line of [_choose_typo_char] return the character it was
    given. *)
Lemma ascii_letters_choice_never_repeats :
  ~ (exists w ch c,
       uses_ascii_letters ascii_ops w ch c = true
       /\ fst (fst (_choose_typo_char ascii_ops w ch c)) = Val (String ch "")).
Proof.
  intros (w & ch & c & Huse & Hres).
  destruct (ascii_letters_choice ascii_ops w ch c) as (l & Hl & _ & _ & Hne);
    trivial.
  - intros ch' _. reflexivity.
  - rewrite Hl in Hres. injection Hres as ->. now apply Hne.
Qed.

(** For the intended [E], a draw of one half and any index: a lower-case
    vowel, never [E] itself.  For the digit [1], which
    [_choose_typo_char] sends to its last line: an ASCII letter. *)
Lemma typo_may_repeat_the_letter_witness :
  (is_upper "E" = true
   /\ ltb (random calm (draws start_counters)) 0.15 = false
   /\ exists s,
        fst (fst (_choose_typo_char ascii_ops calm "E" start_counters)) = Val s
        /\ all_chars is_lower s = true)
  /\ (lowers_ascii ascii_ops
      /\ uses_ascii_letters ascii_ops calm "1" start_counters = true
      /\ exists l,
           fst (fst (_choose_typo_char ascii_ops calm "1" start_counters))
           = Val (String l "")
           /\ l <> "1"%char).
Proof.
  destruct typo_may_repeat_the_letter as (_ & Hlast & Hupper).
  split.
  - split; [reflexivity |]. split; [reflexivity |].
    destruct (Hupper calm "E"%char start_counters) as (s & Hs & Hl & _).
    + reflexivity.
    + reflexivity.
    + now exists s.
  - assert (Hops : lowers_ascii ascii_ops) by (intros ch _; reflexivity).
    split; [exact Hops |]. split; [reflexivity |].
    destruct (Hlast ascii_ops calm "1"%char start_counters Hops)
      as (l & Hl & _ & _ & Hne).
    + reflexivity.
    + now exists l.
Defined.

(* ================================================================== *)
(** ** The countdown *)

Section Countdown.

Variable self : GlobalTypingSimulator.
Variable w : World.

Lemma tick_passes i c :
  is_set w (polls c) = false ->
  tick self w i c = (Val tt, advance_polls 1 c, tick_events i).
Proof.
  intros H. unfold tick, check_stop, bind, poll_stop, _schedule_status,
    sleep, emit, ret. simpl. rewrite H. simpl.
  unfold advance_polls. now rewrite Nat.add_1_r.
Qed.

Lemma tick_stops i c :
  is_set w (polls c) = true ->
  tick self w i c
  = (Returned, advance_polls 1 c, [Finished (stop_callback self)]).
Proof.
  intros H. unfold tick, check_stop, bind, poll_stop, _on_finished,
    py_return, emit. simpl. rewrite H. simpl.
  unfold advance_polls. now rewrite Nat.add_1_r.
Qed.

Lemma advance_polls_add n m c :
  advance_polls n (advance_polls m c) = advance_polls (m + n) c.
Proof. unfold advance_polls. simpl. now rewrite Nat.add_assoc. Qed.

(** The ticks up to the first one that finds the stop flag set. *)
Lemma ticks_stopped (l : list nat) :
  forall n c k,
    k < List.length l ->
    (forall j, j < k -> is_set w (polls c + j) = false) ->
    is_set w (polls c + k) = true ->
    for_enum (fun _ i => tick self w i) n l c
    = (Returned, advance_polls (S k) c,
       flat_map tick_events (firstn k l) ++ [Finished (stop_callback self)]).
Proof.
  induction l as [|i l IH]; intros n c k Hk Hbefore Hat; simpl in Hk; [lia |].
  cbn [for_enum]. destruct k as [|k].
  - rewrite Nat.add_0_r in Hat. unfold bind. now rewrite (tick_stops i c Hat).
  - assert (H0 : is_set w (polls c) = false).
    { rewrite <- (Nat.add_0_r (polls c)). apply Hbefore. lia. }
    unfold bind. rewrite (tick_passes i c H0).
    rewrite (IH (S n) (advance_polls 1 c) k).
    + rewrite advance_polls_add. reflexivity.
    + lia.
    + intros j Hj. simpl. rewrite <- Nat.add_assoc. apply Hbefore. lia.
    + simpl. now rewrite <- Nat.add_assoc.
Qed.

Lemma ticks_pass (l : list nat) :
  forall n c,
    (forall j, j < List.length l -> is_set w (polls c + j) = false) ->
    for_enum (fun _ i => tick self w i) n l c
    = (Val tt, advance_polls (List.length l) c, flat_map tick_events l).
Proof.
  induction l as [|i l IH]; intros n c Hall; cbn [for_enum].
  - unfold ret, advance_polls. simpl. rewrite Nat.add_0_r. now destruct c.
  - assert (H0 : is_set w (polls c) = false).
    { rewrite <- (Nat.add_0_r (polls c)). apply Hall. simpl. lia. }
    unfold bind. rewrite (tick_passes i c H0).
    rewrite (IH (S n) (advance_polls 1 c)).
    + rewrite advance_polls_add. reflexivity.
    + intros j Hj. simpl. rewrite <- Nat.add_assoc. apply Hall. simpl. lia.
Qed.

End Countdown.

(** A stop seen at one of the five ticks of the countdown ends the run
    there: the ticks before it have announced themselves and slept their
    second, then [_on_finished] is called; nothing is typed, and the text
    is not even looked at. *)
Theorem stop_during_countdown (ops : StrOps) (self : GlobalTypingSimulator)
  (w : World) (full_text : string) (k : nat) :
  k < countdown ->
  (forall j, j < k -> is_set w j = false) ->
  is_set w k = true ->
  _run ops self w full_text
  = (Cancelled, countdown_events k ++ [Finished (stop_callback self)]).
Proof.
  intros Hk Hbefore Hat. unfold _run, run_body, bind.
  rewrite (ticks_stopped self w (range_down countdown) 0 start_counters k);
    trivial.
Qed.

(** A stop that is already there at the first tick. *)
Lemma stop_during_countdown_witness :
  0 < countdown
  /\ (forall j, j < 0 ->
        is_set {| is_set := fun _ => true; random := random calm;
                  randbits := randbits calm; tap := tap calm |} j = false)
  /\ is_set {| is_set := fun _ => true; random := random calm;
               randbits := randbits calm; tap := tap calm |} 0 = true
  /\ _run ascii_ops default_sim
       {| is_set := fun _ => true; random := random calm;
          randbits := randbits calm; tap := tap calm |} "text"
     = (Cancelled, [Finished true]).
Proof.
  split; [unfold countdown; lia |]. split; [intros j Hj; lia |].
  split; [reflexivity |].
  apply (stop_during_countdown ascii_ops default_sim
           {| is_set := fun _ => true; random := random calm;
              randbits := randbits calm; tap := tap calm |} "text" 0).
  - unfold countdown; lia.
  - intros j Hj; lia.
  - reflexivity.
Defined.

Lemma first_stop (w : World) (n : nat) :
  (forall j, j < n -> is_set w j = false)
  \/ (exists k, k < n /\ is_set w k = true
                /\ forall j, j < k -> is_set w j = false).
Proof.
  induction n as [|n [IH | (k & Hk & Hat & Hbefore)]].
  - left. intros j Hj. lia.
  - destruct (is_set w n) eqn:E.
    + right. exists n. auto.
    + left. intros j Hj. destruct (Nat.eq_dec j n) as [-> | Hne]; trivial.
      apply IH. lia.
  - right. exists k. auto.
Qed.

(** No key without the countdown: either the run was stopped during the
    countdown and pressed nothing, or it begins with the five announced
    seconds, the status ["Typing..."] and the 0.2 s buffer. *)
Theorem keys_only_after_preamble (ops : StrOps) (self : GlobalTypingSimulator)
  (w : World) (full_text : string) :
  (fst (_run ops self w full_text) = Cancelled
   /\ count is_press (snd (_run ops self w full_text)) = 0)
  \/ (exists rest, snd (_run ops self w full_text) = preamble ++ rest).
Proof.
  destruct (first_stop w countdown) as [Hall | (k & Hk & Hat & Hbefore)].
  - right. unfold _run, run_body, bind.
    rewrite (ticks_pass self w (range_down countdown) 0 start_counters)
      by (intros j Hj; apply Hall; exact Hj).
    unfold _schedule_status at 1. unfold sleep at 1. unfold emit at 1 2.
    match goal with
    | |- context [for_enum ?b 0 ?l ?c] =>
        destruct (for_enum b 0 l c) as [[[[]| |] c1] t1]
    end; simpl; eexists; unfold preamble, countdown_events; reflexivity.
  - left. unfold _run, run_body, bind.
    rewrite (ticks_stopped self w (range_down countdown) 0 start_counters k);
      trivial.
    simpl fst. simpl snd. split; trivial. rewrite count_app. unfold countdown_events.
    rewrite count_zero; trivial.
    apply Forall_forall. intros e He. apply in_flat_map in He.
    destruct He as (i & _ & [<- | [<- | []]]); reflexivity.
Qed.

(* ================================================================== *)
(** ** How soon a stop takes effect *)

Lemma burst_ret {A} (a : A) : burst 0 (ret a).
Proof. intros c. simpl. auto. Qed.

Lemma burst_bind {A B} a b (m : M A) (k : A -> M B) :
  burst a m -> (forall x, burst b (k x)) -> burst (a + b) (bind m k).
Proof.
  intros Hm Hk c. specialize (Hm c). unfold bind.
  destruct (m c) as [[[x| |] c1] t1]; try contradiction.
  - specialize (Hk x c1). destruct (k x c1) as [[[y| |] c2] t2];
      try contradiction; rewrite count_app; destruct Hm, Hk; split; lia.
  - destruct Hm. split; lia.
Qed.

Lemma burst_weaken {A} a b (m : M A) : a <= b -> burst a m -> burst b m.
Proof.
  intros Hab H c. specialize (H c).
  destruct (m c) as [[[x| |] c1] t1]; trivial; destruct H; split; lia.
Qed.

Lemma burst_emit e : is_press e = false -> burst 0 (emit e).
Proof. intros H c. unfold emit, count. simpl. rewrite H. auto. Qed.

Lemma burst_rand w : burst 0 (rand w).
Proof. intros c. simpl. auto. Qed.

Lemma burst_uniform w a b : burst 0 (uniform w a b).
Proof.
  apply (burst_bind 0 0); [apply burst_rand | intros; apply burst_ret].
Qed.

Lemma burst_choice w seq : burst 0 (choice w seq).
Proof. intros c. simpl. auto. Qed.

Lemma burst_press w k : burst 1 (press_release w k).
Proof.
  intros c. unfold press_release. destruct (tap w (taps c) k); simpl; auto.
Qed.

Lemma burst_type_char w ch : burst 1 (_type_char w ch).
Proof.
  intros c. unfold _type_char, try_pass, press_release.
  destruct (tap w (taps c) (KChar ch)); simpl; auto.
Qed.

Ltac burst_step :=
  match goal with
  | |- burst _ (if ?b then _ else _) => destruct b
  | |- burst (_ + _) (bind _ _) => apply burst_bind; [| intros ?]
  | |- burst 0 (ret _) => apply burst_ret
  | |- burst 0 (rand _) => apply burst_rand
  | |- burst 0 (uniform _ _ _) => apply burst_uniform
  | |- burst 0 (choice _ _) => apply burst_choice
  | |- burst 0 (sleep _ _) => apply burst_emit; reflexivity
  | |- burst 1 (press_release _ _) => apply burst_press
  | |- burst 1 (_type_char _ _) => apply burst_type_char
  end.

Lemma burst_choose_typo_char ops w ch : burst 0 (_choose_typo_char ops w ch).
Proof.
  unfold _choose_typo_char. apply (burst_bind 0 0); [apply burst_rand |].
  intros u. repeat burst_step.
Qed.

Section Latency.

Variable ops : StrOps.
Variable self : GlobalTypingSimulator.
Variable w : World.
Variable k : nat.
Hypothesis Hstop : is_set w k = true.

Lemma paced_ret {A} (a : A) : paced k (ret a).
Proof. intros c Hc. simpl. unfold count. simpl. lia. Qed.

Lemma paced_bind {A B} (m : M A) (f : A -> M B) :
  paced k m -> (forall x, paced k (f x)) -> paced k (bind m f).
Proof.
  intros Hm Hf c Hc. specialize (Hm c Hc). unfold bind.
  destruct (m c) as [[[x| |] c1] t1]; trivial.
  destruct Hm as (H1 & H2 & H3). specialize (Hf x c1 H2).
  destruct (f x c1) as [[[y| |] c2] t2]; rewrite count_app;
    destruct Hf as (H4 & H5 & H6); repeat split; lia.
Qed.

Lemma paced_of_burst {A} (m : M A) : burst 0 m -> paced k m.
Proof.
  intros H c Hc. specialize (H c).
  destruct (m c) as [[[x| |] c1] t1]; try contradiction;
    destruct H as [-> H]; repeat split; lia.
Qed.

(** A check of the stop flag followed by at most three presses. *)
Lemma paced_checked {A} (rest : M A) :
  burst 3 rest -> paced k (check_stop self w ;; rest).
Proof.
  intros H c Hc. unfold check_stop, bind, poll_stop, _on_finished,
    py_return, emit, ret. simpl.
  destruct (is_set w (polls c)) eqn:E; simpl.
  - unfold count. simpl. repeat split; lia.
  - assert (Hlt : polls c < k).
    { destruct (Nat.eq_dec (polls c) k) as [Heq | Hne]; [| lia].
      rewrite Heq in E. congruence. }
    match goal with |- context [rest ?c0] => specialize (H c0) end.
    match goal with |- context [rest ?c0] =>
      destruct (rest c0) as [[[x| |] c1] t1] end;
      try contradiction; destruct H as [Hp Hn]; simpl in Hp;
      repeat split; lia.
Qed.

Lemma paced_check_stop : paced k (check_stop self w).
Proof.
  intros c Hc. pose proof (paced_checked (ret tt) (burst_weaken 0 3 _
    (Nat.le_0_l 3) (burst_ret tt)) c Hc) as H.
  unfold bind in *. destruct (check_stop self w c) as [[[[]| |] c1] t1];
    simpl in *; rewrite ?app_nil_r in H; exact H.
Qed.

Lemma paced_for_chars (body : ascii -> M unit) word :
  (forall ch, paced k (body ch)) -> paced k (for_chars body word).
Proof.
  intros Hb. induction word as [|ch rest IH]; simpl.
  - apply paced_ret.
  - apply paced_bind; auto.
Qed.

Lemma paced_for_enum {A} (body : nat -> A -> M unit) l :
  (forall i x, paced k (body i x)) -> forall i, paced k (for_enum body i l).
Proof.
  intros Hb. induction l as [|x rest IH]; intros i; simpl.
  - apply paced_ret.
  - apply paced_bind; auto.
Qed.

Lemma paced_type_one d ch : paced k (type_one ops self w d ch).
Proof.
  unfold type_one. apply paced_checked. cbv zeta.
  apply (burst_bind 0 3); [apply burst_rand |]. intros u.
  apply (burst_bind 2 1).
  - destruct (ltb u (get_typo_rate self) && isalpha ops ch).
    + apply (burst_bind 0 2); [apply burst_choose_typo_char |]. intros s.
      apply (burst_bind 1 1); [apply burst_type_char |]. intros _.
      apply (burst_bind 0 1); [apply burst_uniform |]. intros m1.
      apply (burst_bind 0 1); [apply burst_emit; reflexivity |]. intros _.
      apply (burst_bind 0 1); [apply burst_uniform |]. intros m2.
      apply (burst_bind 0 1); [apply burst_emit; reflexivity |]. intros _.
      apply (burst_bind 1 0); [apply burst_press |]. intros _.
      apply (burst_bind 0 0); [apply burst_rand |]. intros u3.
      apply burst_emit; reflexivity.
    + apply (burst_weaken 0 2); [lia | apply burst_ret].
  - intros _. apply (burst_bind 1 0); [apply burst_type_char |]. intros _.
    apply (burst_bind 0 0); [apply burst_uniform |]. intros r.
    apply burst_emit; reflexivity.
Qed.

Lemma paced_inter_word word : paced k (inter_word self w word).
Proof.
  unfold inter_word. apply paced_checked.
  apply (burst_weaken 1 3); [lia |].
  apply (burst_bind 1 0); [apply burst_press |]. intros _. cbv zeta.
  repeat first
    [ match goal with |- burst _ (if ?b then _ else _) => destruct b end
    | apply (burst_bind 0 0); [first [apply burst_uniform | apply burst_rand] |];
      intros ?
    | apply burst_emit; reflexivity ].
Qed.

Lemma paced_end_of_line lines i : paced k (end_of_line ops self w lines i).
Proof.
  unfold end_of_line. destruct (i <? List.length lines - 1)%nat.
  - apply paced_checked. apply (burst_weaken 1 3); [lia |].
    apply (burst_bind 1 0); [apply burst_press |]. intros _.
    destruct ((i + 1 <? List.length lines)%nat
              && is_blank ops (nth (i + 1) lines ""));
      (apply (burst_bind 0 0); [apply burst_uniform |]; intros ?;
       apply burst_emit; reflexivity).
  - apply paced_ret.
Qed.

Lemma paced_do_word words i word : paced k (do_word ops self w words i word).
Proof.
  unfold do_word. apply paced_bind; [apply paced_check_stop |]. intros _.
  destruct (negb (truthy word)); [apply paced_ret |].
  apply paced_bind.
  { apply paced_of_burst. unfold word_char_delay. cbv zeta.
    apply (burst_bind 0 0); [apply burst_uniform | intros; apply burst_ret]. }
  intros d. apply paced_bind.
  { apply paced_for_chars. intros ch. apply paced_type_one. }
  intros _. destruct (i <? List.length words - 1)%nat.
  - apply paced_inter_word.
  - apply paced_ret.
Qed.

Lemma paced_do_line lines i line : paced k (do_line ops self w lines i line).
Proof.
  unfold do_line. apply paced_bind; [apply paced_check_stop |]. intros _.
  cbv zeta. apply paced_bind.
  { apply paced_of_burst.
    destruct ((0 <? i)%nat && is_blank ops (nth (i - 1) lines "")
              && negb (is_blank ops line)).
    - apply (burst_bind 0 0); [apply burst_uniform |]. intros d.
      apply burst_emit; reflexivity.
    - apply burst_ret. }
  intros _. apply paced_bind.
  { unfold type_line. apply paced_for_enum. intros; apply paced_do_word. }
  intros _. apply paced_end_of_line.
Qed.

(** What follows the countdown. *)
Lemma paced_after_countdown full_text :
  paced k (_schedule_status "Typing..." ;;
           sleep Buffer 0.2 ;;
           for_enum (do_line ops self w (split newline full_text)) 0
             (split newline full_text) ;;
           _schedule_status "Done!" ;;
           _on_finished self).
Proof.
  apply paced_bind; [apply paced_of_burst, burst_emit; reflexivity |].
  intros _. apply paced_bind; [apply paced_of_burst, burst_emit; reflexivity |].
  intros _. apply paced_bind.
  { apply paced_for_enum. intros; apply paced_do_line. }
  intros _. apply paced_bind; [apply paced_of_burst, burst_emit; reflexivity |].
  intros _. apply paced_of_burst, burst_emit; reflexivity.
Qed.

End Latency.

Lemma ticks_press_nothing l :
  count is_press (flat_map tick_events l) = 0.
Proof.
  apply count_zero, Forall_forall. intros e He. apply in_flat_map in He.
  destruct He as (i & _ & [<- | [<- | []]]); reflexivity.
Qed.

(** A stop is obeyed within one character: if the stop flag is found set
    at its [k]-th check (counting from 0), the whole run has pressed at
    most three keys (a wrong character, a backspace, the character) for
    each check that came after the five of the countdown. *)
Theorem stop_is_obeyed (ops : StrOps) (self : GlobalTypingSimulator)
  (w : World) (full_text : string) (k : nat) :
  is_set w k = true ->
  count is_press (snd (_run ops self w full_text)) <= 3 * (k - countdown).
Proof.
  intros Hstop. unfold _run, run_body.
  destruct (first_stop w countdown) as [Hall | (j & Hj & Hat & Hbefore)].
  - assert (Hk : countdown <= k).
    { destruct (Nat.lt_ge_cases k countdown) as [Hlt | Hge]; trivial.
      rewrite (Hall k Hlt) in Hstop. discriminate. }
    unfold bind at 1.
    rewrite (ticks_pass self w (range_down countdown) 0 start_counters)
      by (intros i Hi; apply Hall; exact Hi).
    cbv zeta.
    pose proof (paced_after_countdown ops self w k Hstop full_text
                  (advance_polls (List.length (range_down countdown))
                     start_counters) Hk) as P.
    match type of P with
    | match ?m ?c with _ => _ end => destruct (m c) as [[[[]| |] c2] t2]
    end; cbn [snd]; rewrite count_app, ticks_press_nothing;
      simpl in P; unfold countdown in *; lia.
  - unfold bind at 1.
    rewrite (ticks_stopped self w (range_down countdown) 0 start_counters j);
      trivial.
    cbn [snd]. rewrite count_app, ticks_press_nothing. unfold count. simpl.
    lia.
Qed.

(** The flag set from the seventh check on: at most three keys. *)
Lemma stop_is_obeyed_witness :
  is_set {| is_set := fun n => (6 <=? n)%nat; random := random calm;
            randbits := randbits calm; tap := tap calm |} 6 = true
  /\ count is_press
       (snd (_run ascii_ops default_sim
               {| is_set := fun n => (6 <=? n)%nat; random := random calm;
                  randbits := randbits calm; tap := tap calm |}
               "some text")) <= 3.
Proof.
  split; [reflexivity |].
  apply (stop_is_obeyed ascii_ops default_sim
           {| is_set := fun n => (6 <=? n)%nat; random := random calm;
              randbits := randbits calm; tap := tap calm |} "some text" 6).
  reflexivity.
Defined.

(* ================================================================== *)
(** ** The actions of an undisturbed run, whatever the rates *)

Lemma typed_as_refl (acts : list action) : typed_as acts acts.
Proof. induction acts; constructor; trivial. Qed.

Lemma typed_as_app a1 s1 a2 s2 :
  typed_as a1 s1 -> typed_as a2 s2 -> typed_as (a1 ++ a2) (s1 ++ s2).
Proof. induction 1; intros H2; simpl; try constructor; auto. Qed.

Section Typed.

Variable ops : StrOps.
Variable self : GlobalTypingSimulator.
Variable w : World.
Hypothesis Hstop : forall n, is_set w n = false.
Hypothesis Htap : forall n k, tap w n k = true.

Lemma performs_ret : performs (ret tt) [].
Proof. intros c. exists c, []. split; [reflexivity | constructor]. Qed.

Lemma performs_seq (m n : M unit) s1 s2 :
  performs m s1 -> performs n s2 -> performs (m ;; n) (s1 ++ s2).
Proof.
  intros Hm Hn c. destruct (Hm c) as (c1 & t1 & E1 & T1).
  destruct (Hn c1) as (c2 & t2 & E2 & T2).
  exists c2, (t1 ++ t2). split.
  - rewrite (bind_val _ _ _ _ _ _ E1), E2. reflexivity.
  - rewrite actions_app. now apply typed_as_app.
Qed.

Lemma performs_after {A} (m : M A) (k : A -> M unit) s :
  mute m -> (forall a, performs (k a) s) -> performs (bind m k) s.
Proof.
  intros Hm Hk c. destruct (Hm c) as (a & c1 & E1).
  destruct (Hk a c1) as (c2 & t2 & E2 & T2).
  exists c2, t2. split; trivial.
  rewrite (bind_val _ _ _ _ _ _ E1), E2. reflexivity.
Qed.

Lemma performs_emit e : performs (emit e) (actions [e]).
Proof. intros c. exists c, [e]. split; [reflexivity | apply typed_as_refl]. Qed.

Lemma performs_status msg : performs (_schedule_status msg) [].
Proof. apply (performs_emit (Status msg)). Qed.

Lemma performs_check_stop : performs (check_stop self w) [].
Proof.
  intros c. unfold check_stop, bind, poll_stop. rewrite Hstop. simpl.
  eexists _, []. split; [reflexivity | constructor].
Qed.

Lemma performs_press k : performs (press_release w k) [AKey k].
Proof.
  intros c. unfold press_release. rewrite Htap.
  eexists _, _. split; [reflexivity | apply typed_as_refl].
Qed.

Lemma mute_rand : mute (rand w).
Proof. intros c. unfold rand. eauto. Qed.

Lemma mute_uniform a b : mute (uniform w a b).
Proof. intros c. unfold uniform, bind, rand, ret. simpl. eauto. Qed.

Lemma mute_word_char_delay : mute (word_char_delay self w).
Proof.
  intros c. unfold word_char_delay, uniform, bind, rand, ret. simpl. eauto.
Qed.

(** A character: itself, or a wrong one, a backspace and itself. *)
Lemma performs_type_one d ch :
  performs (type_one ops self w d ch) [AKey (KChar (String ch ""))].
Proof.
  intros c.
  unfold type_one, _choose_typo_char, _type_char, try_pass, press_release,
    check_stop, uniform, rand, choice, sleep, emit, bind, ret, poll_stop.
  simpl. rewrite Hstop. simpl.
  destruct (ltb (random w (draws c)) (get_typo_rate self) && isalpha ops ch);
    simpl.
  - destruct (ltb (random w (S (draws c))) 0.15);
      [| destruct (str_in (lower ops ch) vowels);
         [| destruct (str_in (lower ops ch) consonants)]];
      simpl; rewrite !Htap; simpl; eexists _, _;
      (split; [reflexivity |]); simpl;
      apply typed_typo; constructor.
  - rewrite Htap. simpl. eexists _, _. split; [reflexivity |].
    simpl. apply typed_as_refl.
Qed.

Lemma performs_for_chars d word :
  performs (for_chars (type_one ops self w d) word) (plain_pattern word).
Proof.
  induction word as [|ch rest IH]; simpl.
  - apply performs_ret.
  - apply (performs_seq _ _ [_] _); [apply performs_type_one | exact IH].
Qed.

(** The space and the pause after a word. *)
Lemma performs_inter_word word :
  performs (inter_word self w word) [AKey KSpace; APause (boundary_pause word)].
Proof.
  intros c.
  unfold inter_word, boundary_pause, press_release, check_stop, uniform,
    rand, sleep, emit, bind, ret, poll_stop.
  simpl. rewrite Hstop. simpl. rewrite Htap. simpl.
  destruct (str_in (last_char word) ".!?");
    [| destruct (str_in (last_char word) ",;:")]; simpl.
  - eexists _, _. split; [reflexivity |]. apply typed_as_refl.
  - eexists _, _. split; [reflexivity |]. apply typed_as_refl.
  - destruct (ltb (random w (draws c)) (get_pause_freq self)); simpl;
      eexists _, _; (split; [reflexivity |]); simpl.
    + apply typed_same, typed_thought, typed_nil.
    + apply typed_as_refl.
Qed.

Lemma performs_do_word words i word :
  performs (do_word ops self w words i word) (word_skeleton words i word).
Proof.
  unfold do_word, word_skeleton.
  apply (performs_seq _ _ [] _); [apply performs_check_stop |].
  destruct (truthy word); simpl negb; cbv iota.
  - apply performs_after; [apply mute_word_char_delay |]. intros d.
    apply performs_seq; [apply performs_for_chars |].
    destruct (i <? List.length words - 1)%nat.
    + apply performs_inter_word.
    + apply performs_ret.
  - apply performs_ret.
Qed.

Lemma performs_for_enum {A} (body : nat -> A -> M unit)
  (f : nat -> A -> list action) l :
  (forall i x, performs (body i x) (f i x)) ->
  forall i, performs (for_enum body i l) (flat_enum f i l).
Proof.
  intros Hb. induction l as [|x rest IH]; intros i; simpl.
  - apply performs_ret.
  - apply performs_seq; auto.
Qed.

Lemma performs_do_line lines i line :
  performs (do_line ops self w lines i line) (line_skeleton ops lines i line).
Proof.
  unfold do_line, line_skeleton. cbv zeta.
  apply (performs_seq _ _ [] _); [apply performs_check_stop |].
  apply performs_seq.
  { destruct ((0 <? i)%nat && is_blank ops (nth (i - 1) lines "")
              && negb (is_blank ops line)).
    - apply performs_after; [apply mute_uniform |]. intros d.
      apply (performs_emit (Sleep ParagraphPause d)).
    - apply performs_ret. }
  apply performs_seq.
  { unfold type_line. cbv zeta. apply performs_for_enum.
    intros; apply performs_do_word. }
  unfold end_of_line. destruct (i <? List.length lines - 1)%nat eqn:E.
  - apply (performs_seq _ _ [] _); [apply performs_check_stop |].
    apply (performs_seq _ _ [_] [_]); [apply performs_press |].
    apply Nat.ltb_lt in E.
    replace (i + 1 <? List.length lines)%nat with true
      by (symmetry; apply Nat.ltb_lt; lia).
    simpl andb.
    destruct (is_blank ops (nth (i + 1) lines "")).
    + apply performs_after; [apply mute_uniform |]. intros d.
      apply (performs_emit (Sleep BlankLineGap d)).
    + apply performs_after; [apply mute_uniform |]. intros d.
      apply (performs_emit (Sleep LineGap d)).
  - apply performs_ret.
Qed.

Lemma performs_tick i : performs (tick self w i) [].
Proof.
  unfold tick. apply (performs_seq _ _ [] []); [apply performs_check_stop |].
  apply (performs_seq _ _ [] []); [apply performs_status |].
  apply (performs_emit (Sleep Tick 1)).
Qed.

Lemma performs_run_body full_text :
  performs (run_body ops self w full_text) (skeleton ops full_text).
Proof.
  unfold run_body, skeleton.
  apply (performs_seq _ _ [] _).
  { generalize 0. induction (range_down countdown) as [|i l IH]; intros n; simpl.
    - apply performs_ret.
    - apply (performs_seq _ _ [] []); [apply performs_tick | apply IH]. }
  apply (performs_seq _ _ [] _); [apply performs_status |].
  apply (performs_seq _ _ [] _); [apply (performs_emit (Sleep Buffer 0.2)) |].
  cbv zeta. rewrite <- (app_nil_r (flat_enum _ 0 _)).
  apply performs_seq.
  { apply performs_for_enum. intros; apply performs_do_line. }
  apply (performs_seq _ _ [] []); [apply performs_status |].
  apply (performs_emit (Finished (stop_callback self))).
Qed.

End Typed.

(** Whatever the configuration and the draws, a run nobody stops and
    whose keys the sink accepts completes, and its actions are the skeleton
    of the text: each non-empty word character by character, a space and a
    pause after every word but the last of its line, ENTER and a gap after
    every line but the last, a paragraph pause before a non-blank line that
    follows a blank one.  The only departures are typos (a wrong character
    and a backspace right before the character) and gaps between words
    lengthened to thoughtful pauses. *)
Theorem undisturbed_run_types_the_skeleton (ops : StrOps)
  (self : GlobalTypingSimulator) (w : World) (full_text : string) :
  (forall n, is_set w n = false) ->
  (forall n k, tap w n k = true) ->
  fst (_run ops self w full_text) = Completed
  /\ typed_as (actions (snd (_run ops self w full_text)))
              (skeleton ops full_text).
Proof.
  intros Hstop Htap.
  destruct (performs_run_body ops self w Hstop Htap full_text start_counters)
    as (c' & t & E & T).
  unfold _run. rewrite E. auto.
Qed.

(** The one-line text with a comma, typed twice as fast as the sliders
    start at. *)
Lemma undisturbed_run_types_the_skeleton_witness :
  (forall n, is_set calm n = false)
  /\ (forall n k, tap calm n k = true)
  /\ typed_as (actions (snd (_run ascii_ops default_sim calm "Well, yes")))
              [AKey (KChar "W"); AKey (KChar "e"); AKey (KChar "l");
               AKey (KChar "l"); AKey (KChar ","); AKey KSpace;
               APause ClausePause;
               AKey (KChar "y"); AKey (KChar "e"); AKey (KChar "s")].
Proof.
  split; [reflexivity |]. split; [reflexivity |].
  apply (undisturbed_run_types_the_skeleton ascii_ops default_sim calm
           "Well, yes"); reflexivity.
Defined.

(* ================================================================== *)
(** ** Counting on the skeleton *)

Lemma typed_as_count (p : action -> bool) acts skel :
  (forall s, p (AKey (KChar s)) = false) ->
  p (AKey KBackspace) = false ->
  p (APause ThoughtPause) = p (APause WordGap) ->
  typed_as acts skel ->
  List.length (filter p acts) = List.length (filter p skel).
Proof.
  intros Hc Hb Ht. induction 1 as [|a acts skel _ IH|wrong ch acts skel _ IH
                                     |acts skel _ IH]; simpl; trivial.
  - destruct (p a); simpl; now rewrite IH.
  - now rewrite !Hc, Hb, IH.
  - rewrite Ht. destruct (p (APause WordGap)); simpl; now rewrite IH.
Qed.

Lemma filter_plain_pattern (p : action -> bool) word :
  (forall s, p (AKey (KChar s)) = false) -> filter p (plain_pattern word) = [].
Proof.
  intros Hc. induction word as [|c rest IH]; simpl; trivial.
  now rewrite Hc.
Qed.

Lemma filter_words_skeleton (p : action -> bool) words :
  (forall s, p (AKey (KChar s)) = false) ->
  p (AKey KSpace) = false ->
  (forall word, p (APause (boundary_pause word)) = false) ->
  forall l i, filter p (flat_enum (word_skeleton words) i l) = [].
Proof.
  intros Hc Hs Hp. induction l as [|word rest IH]; intros i; simpl; trivial.
  rewrite filter_app, IH, app_nil_r. unfold word_skeleton.
  destruct (truthy word); trivial.
  rewrite filter_app, filter_plain_pattern by exact Hc.
  destruct (i <? List.length words - 1)%nat; simpl; trivial.
  now rewrite Hs, Hp.
Qed.

Lemma boundary_pause_cases word :
  boundary_pause word = SentencePause \/ boundary_pause word = ClausePause
  \/ boundary_pause word = WordGap.
Proof.
  unfold boundary_pause. destruct (str_in (last_char word) ".!?"); auto.
  destruct (str_in (last_char word) ",;:"); auto.
Qed.

Lemma split_length sep s :
  List.length (split sep s) = S (occurrences sep s).
Proof.
  induction s as [|c s IH]; simpl; trivial.
  destruct (Ascii.eqb c sep); simpl.
  - now rewrite IH.
  - pose proof (split_nonempty sep s) as Hne.
    destruct (split sep s) as [|w0 ws]; [congruence |]. simpl in *. exact IH.
Qed.

Lemma enters_of_lines ops lines :
  forall suffix i,
    i + List.length suffix = List.length lines ->
    List.length (filter is_enter (flat_enum (line_skeleton ops lines) i suffix))
    = List.length suffix - 1.
Proof.
  induction suffix as [|line rest IH]; intros i Hi; simpl; trivial.
  simpl in Hi. rewrite filter_app, length_app, IH by lia.
  unfold line_skeleton. rewrite !filter_app, !length_app.
  rewrite filter_words_skeleton; try reflexivity.
  replace (List.length
             (filter is_enter
                (if (0 <? i)%nat && is_blank ops (nth (i - 1) lines "")
                    && negb (is_blank ops line)
                 then [APause ParagraphPause] else []))) with 0
    by (destruct ((0 <? i)%nat && is_blank ops (nth (i - 1) lines "")
                  && negb (is_blank ops line)); reflexivity).
  destruct (i <? List.length lines - 1)%nat eqn:E.
  - apply Nat.ltb_lt in E. simpl. destruct rest; simpl in *; lia.
  - apply Nat.ltb_ge in E. simpl. destruct rest; simpl in *; lia.
Qed.

(** ENTER is pressed once for every line break of the text, whatever the
    typos: in a run nobody stops and whose keys the sink accepts, the
    ENTER keys sent are as many as the newline characters of the text. *)
Theorem one_enter_per_line_break (ops : StrOps)
  (self : GlobalTypingSimulator) (w : World) (full_text : string) :
  (forall n, is_set w n = false) ->
  (forall n k, tap w n k = true) ->
  List.length (filter is_enter (actions (snd (_run ops self w full_text))))
  = occurrences newline full_text.
Proof.
  intros Hstop Htap.
  destruct (performs_run_body ops self w Hstop Htap full_text start_counters)
    as (c' & t & E & T).
  unfold _run. rewrite E. cbn [snd].
  rewrite (typed_as_count is_enter _ _ (fun _ => eq_refl) eq_refl eq_refl T).
  unfold skeleton. rewrite enters_of_lines by reflexivity.
  rewrite split_length. lia.
Qed.

Lemma one_enter_per_line_break_witness :
  (forall n, is_set calm n = false)
  /\ (forall n k, tap calm n k = true)
  /\ List.length
       (filter is_enter
          (actions (snd (_run ascii_ops default_sim calm
                           ("a" ++ nl ++ nl ++ "b")%string))))
     = 2.
Proof.
  split; [reflexivity |]. split; [reflexivity |].
  apply (one_enter_per_line_break ascii_ops default_sim calm
           ("a" ++ nl ++ nl ++ "b")%string); reflexivity.
Defined.

Lemma paragraph_pause_of_line ops lines i line :
  List.length (filter is_paragraph_pause (line_skeleton ops lines i line))
  = if (0 <? i)%nat && is_blank ops (nth (i - 1) lines "")
       && negb (is_blank ops line)
    then 1 else 0.
Proof.
  unfold line_skeleton. rewrite !filter_app, !length_app.
  rewrite filter_words_skeleton; try reflexivity;
    try (intros word;
         destruct (boundary_pause_cases word) as [-> | [-> | ->]];
         reflexivity).
  destruct ((0 <? i)%nat && is_blank ops (nth (i - 1) lines "")
            && negb (is_blank ops line));
    destruct (i <? List.length lines - 1)%nat;
    try destruct (is_blank ops (nth (i + 1) lines "")); reflexivity.
Qed.

Lemma paragraph_pauses_of_lines ops lines :
  forall suffix i,
    (forall j, nth (i + j) lines "" = nth j suffix "") ->
    List.length
      (filter is_paragraph_pause (flat_enum (line_skeleton ops lines) i suffix))
    = paragraph_starts ops
        ((0 <? i)%nat && is_blank ops (nth (i - 1) lines "")) suffix.
Proof.
  induction suffix as [|line rest IH]; intros i Htail; simpl; trivial.
  rewrite filter_app, length_app, paragraph_pause_of_line.
  rewrite (IH (S i)).
  - simpl. rewrite Nat.sub_0_r.
    pose proof (Htail 0) as H0. rewrite Nat.add_0_r in H0. simpl in H0.
    rewrite H0. reflexivity.
  - intros j. specialize (Htail (S j)). simpl in Htail.
    now rewrite Nat.add_succ_r in Htail.
Qed.

(** A paragraph pause is taken once before every non-blank line that
    follows a blank line, and nowhere else, whatever the typos: in a run
    nobody stops and whose keys the sink accepts. *)
Theorem one_pause_per_paragraph (ops : StrOps)
  (self : GlobalTypingSimulator) (w : World) (full_text : string) :
  (forall n, is_set w n = false) ->
  (forall n k, tap w n k = true) ->
  List.length
    (filter is_paragraph_pause (actions (snd (_run ops self w full_text))))
  = paragraph_starts ops false (split newline full_text).
Proof.
  intros Hstop Htap.
  destruct (performs_run_body ops self w Hstop Htap full_text start_counters)
    as (c' & t & E & T).
  unfold _run. rewrite E. cbn [snd].
  rewrite (typed_as_count is_paragraph_pause _ _
             (fun _ => eq_refl) eq_refl eq_refl T).
  unfold skeleton. now rewrite paragraph_pauses_of_lines.
Qed.

Lemma one_pause_per_paragraph_witness :
  (forall n, is_set calm n = false)
  /\ (forall n k, tap calm n k = true)
  /\ List.length
       (filter is_paragraph_pause
          (actions (snd (_run ascii_ops default_sim calm
                           ("a" ++ nl ++ nl ++ "b")%string))))
     = 1.
Proof.
  split; [reflexivity |]. split; [reflexivity |].
  apply (one_pause_per_paragraph ascii_ops default_sim calm
           ("a" ++ nl ++ nl ++ "b")%string); reflexivity.
Defined.

(* ================================================================== *)
(** ** Splitting and joining *)

Lemma join_cons sep piece rest :
  rest <> [] ->
  join sep (piece :: rest) = (piece ++ String sep (join sep rest))%string.
Proof. destruct rest; [congruence | reflexivity]. Qed.

(** Joining the pieces of a split gives the string back. *)
Lemma join_split sep s : join sep (split sep s) = s.
Proof.
  induction s as [|c s IH]; simpl; trivial.
  pose proof (split_nonempty sep s) as Hne.
  destruct (Ascii.eqb c sep) eqn:E.
  - apply Ascii.eqb_eq in E. subst c.
    rewrite join_cons by exact Hne. simpl. now rewrite IH.
  - destruct (split sep s) as [|w0 ws]; [congruence |].
    destruct ws as [|w1 ws].
    + simpl in *. now rewrite IH.
    + change (join sep (String c w0 :: w1 :: ws))
        with (String c (w0 ++ String sep (join sep (w1 :: ws))))%string.
      change (join sep (w0 :: w1 :: ws))
        with (w0 ++ String sep (join sep (w1 :: ws)))%string in IH.
      now rewrite IH.
Qed.

(** No piece of a split contains the separator. *)
Lemma split_pieces_free sep s :
  Forall (fun piece => all_chars (not_sep sep) piece = true) (split sep s).
Proof.
  induction s as [|c s IH]; simpl.
  - repeat constructor.
  - destruct (Ascii.eqb c sep) eqn:E.
    + constructor; trivial.
    + pose proof (split_nonempty sep s) as Hne.
      destruct (split sep s) as [|w0 ws]; [congruence |].
      inversion IH as [|? ? H0 Hs]; subst. constructor; trivial.
      simpl. unfold not_sep at 1. now rewrite E, H0.
Qed.

(** The pieces keep what holds of every character of the string. *)
Lemma split_pieces_keep (q : ascii -> bool) sep s :
  all_chars q s = true ->
  Forall (fun piece => all_chars q piece = true) (split sep s).
Proof.
  induction s as [|c s IH]; simpl; intros H.
  - repeat constructor.
  - apply andb_prop in H. destruct H as [Hc Hs]. specialize (IH Hs).
    destruct (Ascii.eqb c sep).
    + constructor; trivial.
    + pose proof (split_nonempty sep s) as Hne.
      destruct (split sep s) as [|w0 ws]; [congruence |].
      inversion IH as [|? ? H0 Hws]; subst. constructor; trivial.
      simpl. now rewrite Hc, H0.
Qed.

(** In a well-spaced string every word is non-empty. *)
Lemma well_spaced_words s :
  forall prev,
    well_spaced_from prev s = true ->
    forallb truthy (tl (split space s)) = true
    /\ (prev = true -> truthy (hd "" (split space s)) = true).
Proof.
  induction s as [|c s IH]; intros prev H; simpl in *.
  - split; trivial. intros ->. discriminate.
  - pose proof (split_nonempty space s) as Hne.
    destruct (Ascii.eqb c space).
    + apply andb_prop in H. destruct H as [Hp Hs].
      destruct (IH true Hs) as [Ht Hh]. specialize (Hh eq_refl).
      destruct (split space s) as [|w0 ws]; [congruence |]. simpl in *.
      split.
      * now rewrite Hh, Ht.
      * intros ->. discriminate.
    + destruct (IH false H) as [Ht _].
      destruct (split space s) as [|w0 ws]; [congruence |]. simpl in *.
      split; trivial.
Qed.

(* ================================================================== *)
(** ** Replaying the keys *)

Lemma keys_of_actions_app a b :
  keys_of_actions (a ++ b) = keys_of_actions a ++ keys_of_actions b.
Proof.
  induction a as [|x a IH]; simpl; trivial.
  destruct x; simpl; now rewrite IH.
Qed.

Lemma text_keys_app a b : text_keys (a ++ b) = text_keys a ++ text_keys b.
Proof. induction a as [|c a IH]; simpl; trivial. now rewrite IH. Qed.

Lemma replay_typed acts skel :
  typed_as acts skel ->
  Forall (fun a => is_backspace_action a = false) skel ->
  forall screen, replay screen acts = screen ++ keys_of_actions skel.
Proof.
  induction 1 as [|a acts skel _ IH|wrong ch acts skel _ IH|acts skel _ IH];
    intros Hs screen; simpl.
  - now rewrite app_nil_r.
  - inversion Hs as [|? ? Ha Hs']; subst.
    destruct a as [[s| | |]|p]; simpl in *; try discriminate;
      rewrite (IH Hs'); now rewrite <- ?app_assoc.
  - inversion Hs as [|? ? Ha Hs']; subst.
    rewrite removelast_last, (IH Hs'). now rewrite <- app_assoc.
  - inversion Hs as [|? ? Ha Hs']; subst. now rewrite (IH Hs').
Qed.

Lemma forall_flat_enum {A B} (P : B -> Prop) (f : nat -> A -> list B) l :
  (forall i x, Forall P (f i x)) -> forall i, Forall P (flat_enum f i l).
Proof.
  intros Hf. induction l as [|x rest IH]; intros i; simpl.
  - constructor.
  - apply Forall_app. auto.
Qed.

Lemma plain_pattern_no_backspace word :
  Forall (fun a => is_backspace_action a = false) (plain_pattern word).
Proof. induction word; simpl; constructor; trivial. Qed.

Lemma skeleton_no_backspace ops full_text :
  Forall (fun a => is_backspace_action a = false) (skeleton ops full_text).
Proof.
  unfold skeleton. apply forall_flat_enum. intros i line.
  unfold line_skeleton. apply Forall_app. split; [| apply Forall_app; split].
  - destruct (_ && _ && _); repeat constructor.
  - apply forall_flat_enum. intros j word. unfold word_skeleton.
    destruct (truthy word); [| constructor].
    apply Forall_app. split; [apply plain_pattern_no_backspace |].
    destruct (j <? _)%nat; repeat constructor.
  - destruct (i <? _)%nat; [destruct (is_blank ops _) |]; repeat constructor.
Qed.

Lemma keys_of_plain_pattern word :
  all_chars ordinary word = true ->
  keys_of_actions (plain_pattern word) = text_keys word.
Proof.
  induction word as [|c rest IH]; simpl; trivial. intros H.
  apply andb_prop in H. destruct H as [Hc Hr]. rewrite (IH Hr).
  unfold ordinary in Hc. apply andb_prop in Hc. destruct Hc as [H1 H2].
  apply negb_true_iff in H1, H2. unfold key_of_char. now rewrite H1, H2.
Qed.

Lemma keys_of_words words :
  forall suffix i,
    i + List.length suffix = List.length words ->
    Forall (fun word => truthy word = true /\ all_chars ordinary word = true)
      suffix ->
    keys_of_actions (flat_enum (word_skeleton words) i suffix)
    = text_keys (join space suffix).
Proof.
  induction suffix as [|word rest IH]; intros i Hi Hall; simpl; trivial.
  inversion Hall as [|? ? [Ht Ho] Hrest]; subst. simpl in Hi.
  rewrite keys_of_actions_app, (IH (S i)) by (trivial; lia).
  unfold word_skeleton. rewrite Ht, keys_of_actions_app, keys_of_plain_pattern
    by exact Ho.
  destruct rest as [|next rest'].
  - replace (i <? List.length words - 1)%nat with false
      by (symmetry; apply Nat.ltb_ge; simpl in Hi; lia).
    simpl. now rewrite !app_nil_r.
  - replace (i <? List.length words - 1)%nat with true
      by (symmetry; apply Nat.ltb_lt; simpl in Hi; lia).
    change (join space (word :: next :: rest'))
      with (word ++ String space (join space (next :: rest')))%string.
    rewrite text_keys_app. simpl. now rewrite <- app_assoc.
Qed.

Lemma truthy_eqb s : truthy s = negb (String.eqb s "").
Proof. now destruct s. Qed.

Lemma all_chars_ordinary word :
  all_chars (not_sep space) word = true ->
  all_chars (not_sep newline) word = true ->
  all_chars ordinary word = true.
Proof.
  induction word as [|c rest IH]; simpl; trivial. intros H1 H2.
  apply andb_prop in H1, H2. destruct H1 as [Hs H1], H2 as [Hn H2].
  rewrite (IH H1 H2). unfold ordinary, not_sep in *. now rewrite Hs, Hn.
Qed.

Lemma keys_of_line ops line :
  plain_line ops line = true ->
  all_chars (not_sep newline) line = true ->
  keys_of_actions
    (flat_enum (word_skeleton (words_of ops line)) 0 (words_of ops line))
  = text_keys line.
Proof.
  intros Hplain Hnl. destruct line as [|a s]; [reflexivity |].
  unfold plain_line in Hplain. apply andb_prop in Hplain.
  destruct Hplain as [Hblank Hspaced].
  unfold words_of. rewrite truthy_eqb. fold (is_blank ops (String a s)).
  rewrite Hblank.
  rewrite keys_of_words; [now rewrite join_split | reflexivity |].
  destruct (well_spaced_words _ _ Hspaced) as [Ht Hh]. specialize (Hh eq_refl).
  pose proof (split_pieces_free space (String a s)) as Hfree.
  pose proof (split_pieces_keep (not_sep newline) space _ Hnl) as Hkeep.
  pose proof (split_nonempty space (String a s)) as Hne.
  destruct (split space (String a s)) as [|w0 ws]; [congruence |].
  simpl in Ht, Hh.
  assert (Hall : forallb truthy (w0 :: ws) = true) by (simpl; now rewrite Hh).
  clear Ht Hh Hne. revert Hfree Hkeep Hall.
  generalize (w0 :: ws). intros l. induction l as [|x l IH]; intros Hf Hk Ha.
  - constructor.
  - inversion Hf; inversion Hk; subst. simpl in Ha.
    apply andb_prop in Ha. destruct Ha as [Hx Hl].
    constructor; [| now apply IH].
    split; trivial. now apply all_chars_ordinary.
Qed.

Lemma keys_of_lines ops lines :
  forall suffix i,
    i + List.length suffix = List.length lines ->
    Forall (fun line => plain_line ops line = true
                        /\ all_chars (not_sep newline) line = true) suffix ->
    keys_of_actions (flat_enum (line_skeleton ops lines) i suffix)
    = text_keys (join newline suffix).
Proof.
  induction suffix as [|line rest IH]; intros i Hi Hall; simpl; trivial.
  inversion Hall as [|? ? [Hp Hn] Hrest]; subst. simpl in Hi.
  rewrite keys_of_actions_app, (IH (S i)) by (trivial; lia).
  unfold line_skeleton. rewrite !keys_of_actions_app, keys_of_line by trivial.
  replace (keys_of_actions
             (if (0 <? i)%nat && is_blank ops (nth (i - 1) lines "")
                 && negb (is_blank ops line)
              then [APause ParagraphPause] else [])) with (@nil key)
    by (now destruct (_ && _ && _)).
  destruct rest as [|next rest'].
  - replace (i <? List.length lines - 1)%nat with false
      by (symmetry; apply Nat.ltb_ge; simpl in Hi; lia).
    simpl. now rewrite !app_nil_r.
  - replace (i <? List.length lines - 1)%nat with true
      by (symmetry; apply Nat.ltb_lt; simpl in Hi; lia).
    change (join newline (line :: next :: rest'))
      with (line ++ String newline (join newline (next :: rest')))%string.
    rewrite text_keys_app. simpl. now rewrite <- app_assoc.
Qed.

(** Typos are always undone: for a text whose lines have single spaces
    between words only and are not made of whitespace alone, in a run
    nobody stops and whose keys the sink accepts, what is left of the keys
    sent, every backspace having erased the key before it, is the text,
    character for character, at any typo rate. *)
Theorem typed_text_is_the_text (ops : StrOps)
  (self : GlobalTypingSimulator) (w : World) (full_text : string) :
  (forall n, is_set w n = false) ->
  (forall n k, tap w n k = true) ->
  plain_text ops full_text = true ->
  replay [] (actions (snd (_run ops self w full_text))) = text_keys full_text.
Proof.
  intros Hstop Htap Hplain.
  destruct (performs_run_body ops self w Hstop Htap full_text start_counters)
    as (c' & t & E & T).
  unfold _run. rewrite E. cbn [snd].
  rewrite (replay_typed _ _ T (skeleton_no_backspace ops full_text)).
  simpl. unfold skeleton. rewrite keys_of_lines; [now rewrite join_split | reflexivity |].
  unfold plain_text in Hplain. rewrite forallb_forall in Hplain.
  pose proof (split_pieces_free newline full_text) as Hfree.
  rewrite Forall_forall in *. intros line Hin. split; auto.
Qed.

(** Every letter mistyped and corrected: the text is still there. *)
Lemma typed_text_is_the_text_witness :
  (forall n, is_set calm n = false)
  /\ (forall n k, tap calm n k = true)
  /\ plain_text ascii_ops ("Hi there." ++ nl ++ nl ++ "Bye")%string = true
  /\ replay []
       (actions (snd (_run ascii_ops (with_rates 1.0 0.08) calm
                        ("Hi there." ++ nl ++ nl ++ "Bye")%string)))
     = text_keys ("Hi there." ++ nl ++ nl ++ "Bye")%string.
Proof.
  split; [reflexivity |]. split; [reflexivity |]. split; [reflexivity |].
  apply (typed_text_is_the_text ascii_ops (with_rates 1.0 0.08) calm
           ("Hi there." ++ nl ++ nl ++ "Bye")%string); reflexivity.
Defined.

(** Doubled spaces are not typed back: the text is not reproduced. *)
Example doubled_space_is_lost :
  replay [] (actions (snd (_run ascii_ops (with_rates 0 0) calm "a  b")))
  = text_keys "a b".
Proof. reflexivity. Qed.

(* ================================================================== *)
(** ** With both rates at zero *)

Lemma typed_as_steady acts skel :
  typed_as acts skel -> Forall steady_action acts -> acts = skel.
Proof.
  induction 1 as [|a acts skel _ IH|wrong ch acts skel _ IH|acts skel _ IH];
    intros Hs; trivial.
  - inversion Hs; subst. f_equal. auto.
  - inversion Hs as [|? ? _ Hs1]; subst. inversion Hs1 as [|? ? Hb _]; subst.
    contradiction.
  - inversion Hs as [|? ? Ht _]; subst. contradiction.
Qed.

Lemma steady_actions t : Forall steady t -> Forall steady_action (actions t).
Proof.
  induction 1 as [|e t He _ IH]; simpl; [constructor |].
  destruct e as [msg|b|p d|k b]; trivial.
  - destruct p; simpl; first [exact IH | constructor; [exact He | exact IH]].
  - constructor; [| exact IH]. destruct k; exact He.
Qed.

Section ZeroRates.

Variable ops : StrOps.
Variable self : GlobalTypingSimulator.
Variable w : World.
Hypothesis Hdraws : forall n, (0 <= random w n)%Q.
Hypothesis Htypo : (get_typo_rate self <= 0)%Q.
Hypothesis Hpause : (get_pause_freq self <= 0)%Q.

Lemma each_after_rand {B} P (k : Q -> M B) :
  (forall u, (0 <= u)%Q -> each P (k u)) -> each P (bind (rand w) k).
Proof.
  intros H c. unfold bind, rand.
  specialize (H (random w (draws c)) (Hdraws (draws c))
                {| polls := polls c; draws := S (draws c); taps := taps c |}).
  destruct (k _ _) as [[r c2] t2]. exact H.
Qed.

Lemma each_steady_type_one d ch : each steady (type_one ops self w d ch).
Proof.
  unfold type_one. cbv zeta.
  apply each_bind; [unfold check_stop; repeat each_step |]. intros _.
  apply each_after_rand. intros u Hu.
  rewrite (ltb_false_of_le u (get_typo_rate self))
    by (now apply Qle_trans with 0%Q).
  simpl andb. cbv iota. unfold uniform. repeat each_step.
Qed.

Lemma each_steady_inter_word word : each steady (inter_word self w word).
Proof.
  unfold inter_word. cbv zeta.
  apply each_bind; [unfold check_stop; repeat each_step |]. intros _.
  apply each_bind; [repeat each_step |]. intros _.
  destruct (str_in (last_char word) ".!?");
    [unfold uniform; repeat each_step |].
  destruct (str_in (last_char word) ",;:");
    [unfold uniform; repeat each_step |].
  apply each_after_rand. intros u Hu.
  rewrite (ltb_false_of_le u (get_pause_freq self))
    by (now apply Qle_trans with 0%Q).
  unfold uniform. repeat each_step.
Qed.

Lemma each_steady_run_body full_text :
  each steady (run_body ops self w full_text).
Proof.
  unfold run_body. cbv zeta.
  apply each_bind.
  { apply each_for_enum. intros. unfold tick, check_stop. repeat each_step. }
  intros _. apply each_bind; [repeat each_step |]. intros _.
  apply each_bind; [repeat each_step |]. intros _.
  apply each_bind; [| intros _; repeat each_step].
  apply each_for_enum. intros i line. unfold do_line. cbv zeta.
  apply each_bind; [unfold check_stop; repeat each_step |]. intros _.
  apply each_bind; [unfold uniform; repeat each_step |]. intros _.
  apply each_bind;
    [| intros _; unfold end_of_line, check_stop, uniform; repeat each_step].
  unfold type_line. apply each_for_enum. intros j word. unfold do_word.
  apply each_bind; [unfold check_stop; repeat each_step |]. intros _.
  destruct (negb (truthy word)); [apply each_ret |].
  apply each_bind; [unfold word_char_delay, uniform; repeat each_step |].
  intros d. apply each_bind.
  { apply each_for_chars. intros ch. apply each_steady_type_one. }
  intros _. destruct (j <? _)%nat; [apply each_steady_inter_word | apply each_ret].
Qed.

End ZeroRates.

(** With the typo rate and the pause frequency at zero the random draws
    only set the durations: in a run nobody stops and whose keys the sink
    accepts, the actions are the skeleton of the text, the same for every
    world; in particular no backspace is ever sent. *)
Theorem zero_rates_type_the_skeleton_exactly (ops : StrOps)
  (self : GlobalTypingSimulator) (w : World) (full_text : string) :
  nominal w ->
  (get_typo_rate self <= 0)%Q ->
  (get_pause_freq self <= 0)%Q ->
  fst (_run ops self w full_text) = Completed
  /\ actions (snd (_run ops self w full_text)) = skeleton ops full_text.
Proof.
  intros Hw Htypo Hpause.
  destruct (performs_run_body ops self w (never_stopped w Hw)
              (all_delivered w Hw) full_text start_counters)
    as (c' & t & E & T).
  pose proof (each_steady_run_body ops self w
                (fun n => proj1 (unit_draws w Hw n)) Htypo Hpause
                full_text start_counters) as Hs.
  unfold _run. rewrite E in *. cbn [fst snd] in *. split; trivial.
  apply typed_as_steady; trivial. now apply steady_actions.
Qed.

Lemma zero_rates_type_the_skeleton_exactly_witness :
  nominal calm
  /\ (get_typo_rate (with_rates 0 0) <= 0)%Q
  /\ (get_pause_freq (with_rates 0 0) <= 0)%Q
  /\ actions (snd (_run ascii_ops (with_rates 0 0) calm "So it goes."))
     = skeleton ascii_ops "So it goes.".
Proof.
  split; [exact calm_is_nominal |]. split; [discriminate |].
  split; [discriminate |].
  apply (zero_rates_type_the_skeleton_exactly ascii_ops (with_rates 0 0) calm
           "So it goes." calm_is_nominal); discriminate.
Defined.

(* ================================================================== *)
(** ** The range of the delays *)

Lemma base_cps_pos self : (0 < base_cps_of self)%Q.
Proof.
  unfold base_cps_of. apply Qlt_shift_div_l; [reflexivity |].
  rewrite Qmult_0_l. unfold Qlt. simpl. lia.
Qed.

Lemma uniform_of_between (lo hi u : Q) :
  (lo <= hi)%Q -> (0 <= u)%Q -> (u <= 1)%Q ->
  (lo <= uniform_of lo hi u)%Q /\ (uniform_of lo hi u <= hi)%Q.
Proof. intros. unfold uniform_of. split; nra. Qed.

(** With a speed variation below 1 the fallback delay is never used: the
    delay of a word is the inverse of a rate that lies within the speed
    variation of the configured rate, [wpm * 5 / 60] characters per
    second with [wpm] at least 1. *)
Theorem word_speed_within_variation (self : GlobalTypingSimulator) (u : Q) :
  (0 <= get_speed_variation self)%Q ->
  (get_speed_variation self < 1)%Q ->
  (0 <= u)%Q -> (u < 1)%Q ->
  let sv := get_speed_variation self in
  let rate := effective_cps_of self (uniform_of (1 - sv) (1 + sv) u) in
  char_delay_of self (uniform_of (1 - sv) (1 + sv) u) = (1 / rate)%Q
  /\ (base_cps_of self * (1 - sv) <= rate)%Q
  /\ (rate <= base_cps_of self * (1 + sv))%Q.
Proof.
  intros Hsv0 Hsv1 Hu0 Hu1 sv rate.
  pose proof (base_cps_pos self) as Hb.
  assert (Hu1' : (u <= 1)%Q) by (now apply Qlt_le_weak).
  destruct (uniform_of_between (1 - sv) (1 + sv) u) as [Hlo Hhi]; trivial.
  { unfold sv. nra. }
  assert (Hrate : rate = (base_cps_of self * uniform_of (1 - sv) (1 + sv) u)%Q)
    by reflexivity.
  assert (Hpos : (0 < rate)%Q).
  { rewrite Hrate. apply Qmult_lt_0_compat; trivial.
    apply Qlt_le_trans with (1 - sv)%Q; trivial. unfold sv. nra. }
  split; [| split].
  - destruct (char_delay_of_cases self (uniform_of (1 - sv) (1 + sv) u))
      as [[_ E] | [Hle _]]; trivial.
    exfalso. exact (Qlt_not_le _ _ Hpos Hle).
  - rewrite Hrate. nra.
  - rewrite Hrate. nra.
Qed.

Lemma word_speed_within_variation_witness :
  (0 <= get_speed_variation default_sim)%Q
  /\ (get_speed_variation default_sim < 1)%Q
  /\ (0 <= 0.5)%Q /\ (0.5 < 1)%Q
  /\ char_delay_of default_sim (uniform_of (1 - 0.4) (1 + 0.4) 0.5)
     = (1 / effective_cps_of default_sim (uniform_of (1 - 0.4) (1 + 0.4) 0.5))%Q.
Proof.
  split; [discriminate |]. split; [reflexivity |]. split; [discriminate |].
  split; [reflexivity |].
  apply (word_speed_within_variation default_sim 0.5);
    first [discriminate | reflexivity].
Defined.

(** At the other end, a speed variation of 1 and a draw of 0 stop the
    word's rate at zero, and the delay falls back to 0.12 s. *)
Example fallback_delay_is_reachable :
  char_delay_of
    {| get_wpm := 60; get_typo_rate := 0.03; get_pause_freq := 0.08;
       get_sentence_pause := 1.0; get_paragraph_pause := 2.0;
       get_speed_variation := 1; get_mistake_correction_delay := 0.3;
       stop_callback := true |}
    (uniform_of (1 - 1) (1 + 1) 0) = 0.12%Q.
Proof. reflexivity. Qed.

(** The sleep after a character is between 0.6 and 1.6 times the delay of
    its word, unless the floor of 0.01 s applies. *)
Theorem char_sleep_within_jitter (char_delay u : Q) :
  (0 < char_delay)%Q -> (0 <= u)%Q -> (u < 1)%Q ->
  let s := sleep_time_of char_delay (uniform_of (-0.4) 0.6 u) in
  (0.6 * char_delay <= s)%Q
  /\ (s = 0.01%Q \/ (s < 1.6 * char_delay)%Q).
Proof.
  intros Hd Hu0 Hu1 s. unfold s, sleep_time_of, pymax. cbv zeta.
  set (x := (char_delay + uniform_of (-0.4) 0.6 u * char_delay)%Q).
  assert (Hx : (0.6 * char_delay <= x)%Q /\ (x < 1.6 * char_delay)%Q).
  { unfold x, uniform_of. split; nra. }
  destruct Hx as [Hx1 Hx2].
  destruct (ltb 0.01 x) eqn:E.
  - split; auto.
  - split; auto. apply Qle_trans with x; trivial.
    apply Qnot_lt_le. intros H. apply ltb_true_iff in H. congruence.
Qed.

Lemma char_sleep_within_jitter_witness :
  (0 < 0.2)%Q /\ (0 <= 0.5)%Q /\ (0.5 < 1)%Q
  /\ (0.6 * 0.2 <= sleep_time_of 0.2 (uniform_of (-0.4) 0.6 0.5))%Q.
Proof.
  split; [reflexivity |]. split; [discriminate |]. split; [reflexivity |].
  apply (char_sleep_within_jitter 0.2 0.5);
    first [discriminate | reflexivity].
Defined.

(* ================================================================== *)
(** ** The wrong character, for the letters of ASCII *)

Lemma letter_class ch :
  ascii_isalpha ch = true ->
  str_in (ascii_lower ch) vowels = true
  \/ (str_in (ascii_lower ch) vowels = false
      /\ str_in (ascii_lower ch) consonants = true).
Proof.
  destruct ch as [[] [] [] [] [] [] [] []]; intros H;
    try discriminate H; vm_compute; auto.
Qed.

Lemma swapcase_of_letter ch :
  ascii_isalpha ch = true ->
  exists x, ascii_swapcase ch = String x ""
            /\ ascii_isalpha x = true /\ x <> ch
            /\ ascii_lower x = ascii_lower ch.
Proof.
  destruct ch as [[] [] [] [] [] [] [] []]; intros H;
    try discriminate H; eexists; (split; [reflexivity |]);
    (split; [reflexivity |]); (split; [discriminate | reflexivity]).
Qed.

Lemma vowel_pick n :
  exists x, char_at vowels (n mod 5) = String x ""
            /\ ascii_isalpha x = true
            /\ str_in (ascii_lower x) vowels = true.
Proof.
  assert (H : n mod 5 < 5) by (apply Nat.mod_upper_bound; discriminate).
  revert H. generalize (n mod 5). intros i H.
  do 5 (destruct i as [|i]; [eexists; repeat split; reflexivity |]).
  lia.
Qed.

Lemma consonant_pick n :
  exists x, char_at consonants (n mod 21) = String x ""
            /\ ascii_isalpha x = true
            /\ str_in (ascii_lower x) vowels = false
            /\ str_in (ascii_lower x) consonants = true.
Proof.
  assert (H : n mod 21 < 21) by (apply Nat.mod_upper_bound; discriminate).
  revert H. generalize (n mod 21). intros i H.
  do 21 (destruct i as [|i]; [eexists; repeat split; reflexivity |]).
  lia.
Qed.

(** For a letter of ASCII the wrong character is always one letter of
    ASCII of the same kind, a vowel for a vowel and a consonant for a
    consonant: the letter itself in the other case when the first draw is
    below 0.15, a lower-case letter of its kind otherwise.  The choice
    among all letters is never reached. *)
Theorem wrong_letter_is_of_the_same_kind (w : World) (ch : ascii)
  (c : Counters) :
  ascii_isalpha ch = true ->
  exists x,
    fst (fst (_choose_typo_char ascii_ops w ch c)) = Val (String x "")
    /\ ascii_isalpha x = true
    /\ str_in (ascii_lower x) vowels = str_in (ascii_lower ch) vowels
    /\ (if ltb (random w (draws c)) 0.15
        then x <> ch /\ ascii_lower x = ascii_lower ch
        else is_lower x = true).
Proof.
  intros Hch. unfold _choose_typo_char, bind, rand, choice, ret.
  cbn -[Nat.modulo ltb str_in char_at ascii_lower ascii_swapcase vowels
        consonants ascii_letters].
  destruct (ltb (random w (draws c)) 0.15).
  - destruct (swapcase_of_letter ch Hch) as (x & Hx & Ha & Hne & Hl).
    exists x. cbn [fst]. rewrite Hx, Hl. auto.
  - destruct (letter_class ch Hch) as [Hv | [Hv Hc]].
    + rewrite Hv. cbn [fst draws].
      destruct (vowel_pick (randbits w (S (draws c)))) as (x & Hx & Ha & Hxv).
      exists x. change (String.length vowels) with 5. rewrite Hx, Hxv.
      repeat split; trivial.
      destruct (vowel_is_lower (randbits w (S (draws c)) mod 5)) as [Hlow _].
      { apply Nat.mod_upper_bound. discriminate. }
      rewrite Hx in Hlow. simpl in Hlow. now rewrite andb_true_r in Hlow.
    + rewrite Hv, Hc. cbn [fst draws].
      destruct (consonant_pick (randbits w (S (draws c))))
        as (x & Hx & Ha & Hxv & Hxc).
      exists x. change (String.length consonants) with 21. rewrite Hx, Hxv.
      repeat split; trivial.
      destruct (consonant_is_lower (randbits w (S (draws c)) mod 21))
        as [Hlow _].
      { apply Nat.mod_upper_bound. discriminate. }
      rewrite Hx in Hlow. simpl in Hlow. now rewrite andb_true_r in Hlow.
Qed.

Lemma wrong_letter_is_of_the_same_kind_witness :
  ascii_isalpha "Q" = true
  /\ exists x,
       fst (fst (_choose_typo_char ascii_ops calm "Q" start_counters))
       = Val (String x "")
       /\ ascii_isalpha x = true.
Proof.
  split; [reflexivity |].
  destruct (wrong_letter_is_of_the_same_kind calm "Q"%char start_counters)
    as (x & Hx & Ha & _).
  - reflexivity.
  - now exists x.
Defined.

(* ================================================================== *)
(** ** The window *)





Lemma handle_keeps_lock ops e win :
  (panic_window (gui win) = negb (controls_enabled (gui win))
   /\ (stop_button_enabled (gui win) = true ->
       controls_enabled (gui win) = false)) ->
  panic_window (gui (handle ops e win))
  = negb (controls_enabled (gui (handle ops e win)))
  /\ (stop_button_enabled (gui (handle ops e win)) = true ->
      controls_enabled (gui (handle ops e win)) = false).
Proof.
  destruct win as [[sim ce sbe label pw dl] ttl]. simpl. intros [H1 H2].
  destruct e as [content| | |msg| |]; simpl;
    unfold type_clicked, start_typing, stop_typing, panic_stop,
      on_finished_reset_ui, do_status;
    destruct ce, sbe, pw; simpl in *;
    try discriminate H1;
    try (specialize (H2 eq_refl); discriminate H2);
    try destruct (negb (truthy (strip ops (rstrip_newlines content))));
    simpl; (split; [reflexivity | intros; first [reflexivity | discriminate]]).
Qed.

(** The controls and the panic window go together: whatever the user
    clicks and whenever callbacks and the end of the thread arrive, the
    panic window is open exactly while the controls are disabled, and the
    Stop button is enabled only then. *)
Theorem panic_window_while_locked (ops : StrOps) (es : list ui_event) :
  panic_window (gui (handle_all ops es fresh_window))
  = negb (controls_enabled (gui (handle_all ops es fresh_window)))
  /\ (stop_button_enabled (gui (handle_all ops es fresh_window)) = true ->
      controls_enabled (gui (handle_all ops es fresh_window)) = false).
Proof.
  unfold handle_all.
  assert (H0 : panic_window (gui fresh_window)
               = negb (controls_enabled (gui fresh_window))
               /\ (stop_button_enabled (gui fresh_window) = true ->
                   controls_enabled (gui fresh_window) = false))
    by (split; [reflexivity | discriminate]).
  revert H0. generalize fresh_window.
  induction es as [|e es IH]; intros win H; simpl; trivial.
  apply IH. now apply handle_keeps_lock.
Qed.

Lemma on_motion_dragging press m q :
  drag_start_x q = at_x press -> drag_start_y q = at_y press ->
  is_dragging (on_motion m q) = is_dragging q || negb (near press m)
  /\ drag_start_x (on_motion m q) = at_x press
  /\ drag_start_y (on_motion m q) = at_y press.
Proof.
  intros Hx Hy. unfold on_motion, near. rewrite Hx, Hy.
  destruct (Z.ltb_spec 5 (Z.abs (at_x m - at_x press)));
    destruct (Z.ltb_spec 5 (Z.abs (at_y m - at_y press)));
    destruct (Z.leb_spec (Z.abs (at_x m - at_x press)) 5);
    destruct (Z.leb_spec (Z.abs (at_y m - at_y press)) 5);
    try lia; simpl; rewrite ?orb_true_r, ?orb_false_r; auto.
Qed.

Lemma gesture_dragging press motions p :
  is_dragging (gesture press motions p)
  = negb (forallb (near press) motions).
Proof.
  unfold gesture.
  assert (H : forall q,
             drag_start_x q = at_x press -> drag_start_y q = at_y press ->
             is_dragging (fold_left (fun acc m => on_motion m acc) motions q)
             = is_dragging q || negb (forallb (near press) motions)).
  { induction motions as [|m ms IH]; intros q Hx Hy; simpl.
    - now rewrite orb_false_r.
    - destruct (on_motion_dragging press m q Hx Hy) as (Hd & Hx' & Hy').
      rewrite (IH (on_motion m q) Hx' Hy'), Hd, negb_andb.
      now rewrite orb_assoc. }
  now rewrite H.
Qed.

(** A click and a drag are told apart by the 5 pixels: releasing the
    panic button requests the stop exactly when no motion since the press
    went more than 5 pixels, across or down, from where the button was
    pressed; once one did, coming back does not turn the drag into a
    click. *)
Theorem click_unless_dragged (press release : Mouse)
  (motions : list Mouse) (p : Panic) :
  on_release release (gesture press motions p)
  = forallb (near press) motions.
Proof.
  unfold on_release. rewrite gesture_dragging. apply negb_involutive.
Qed.

Lemma motion_keeps_offset m q :
  (win_x (on_motion m q) - press_x (on_motion m q) = win_x q - press_x q)%Z
  /\ (win_y (on_motion m q) - press_y (on_motion m q)
      = win_y q - press_y q)%Z.
Proof.
  unfold on_motion. destruct (_ || _)%bool; simpl; lia.
Qed.

(** The panic window follows the pointer: through any motions of a
    gesture the window stays where it was relative to the point the
    handlers last anchored at, so it has moved by what the pointer moved
    between the press and that point. *)
Theorem panic_window_follows_pointer (press : Mouse)
  (motions : list Mouse) (p : Panic) :
  win_x (gesture press motions p)
  = (win_x p + (press_x (gesture press motions p) - x_root press))%Z
  /\ win_y (gesture press motions p)
     = (win_y p + (press_y (gesture press motions p) - y_root press))%Z.
Proof.
  unfold gesture.
  assert (H : forall q,
             let q' := fold_left (fun acc m => on_motion m acc) motions q in
             (win_x q' - press_x q' = win_x q - press_x q)%Z
             /\ (win_y q' - press_y q' = win_y q - press_y q)%Z).
  { induction motions as [|m ms IH]; intros q; simpl; [lia |].
    destruct (IH (on_motion m q)) as [Hx Hy].
    destruct (motion_keeps_offset m q) as [Mx My]. simpl in Hx, Hy. lia. }
  destruct (H (on_press press p)) as [Hx Hy]. simpl in Hx, Hy. lia.
Qed.

Lemma rstrip_by_tail (p : ascii -> bool) (s : string) :
  exists tail, s = (rstrip_by p s ++ tail)%string /\ all_chars p tail = true.
Proof.
  induction s as [|c s (tail & Hs & Ht)]; simpl.
  - now exists "".
  - destruct (rstrip_by p s) as [|c' r] eqn:E.
    + destruct (p c) eqn:Hc.
      * simpl in Hs. exists (String c s). split; [reflexivity |].
        simpl. rewrite Hc. simpl. now rewrite Hs.
      * exists tail. split; [| exact Ht]. simpl in *. now rewrite <- Hs.
    + exists tail. split; [| exact Ht]. simpl in *. now rewrite <- Hs.
Qed.

Lemma rstrip_by_end (p : ascii -> bool) (s : string) (c : ascii) :
  last_char (rstrip_by p s) = String c "" -> p c = false.
Proof.
  induction s as [|a s IH]; simpl; [discriminate |].
  destruct (rstrip_by p s) as [|c' r] eqn:E.
  - destruct (p a) eqn:Ha; simpl; [discriminate |].
    intros H. now injection H as <-.
  - intros H. apply IH. exact H.
Qed.

(** What the Type button starts: when the text box holds more than
    whitespace and no thread is alive, [start_typing] starts one thread,
    on the content with its trailing newlines (the one the text box adds
    included) removed and nothing else changed; it clears an earlier stop
    request, disables the controls, enables Stop and opens the panic
    window. *)
Theorem type_starts_on_the_text (ops : StrOps) (content : string) (g : Gui) :
  truthy (strip ops (rstrip_newlines content)) = true ->
  running (simulator g) = false ->
  exists full_text tail,
    content = (full_text ++ tail)%string
    /\ all_chars (Ascii.eqb newline) tail = true
    /\ last_char full_text <> String newline ""
    /\ started (simulator (start_typing ops content g))
       = started (simulator g) ++ [full_text]
    /\ running (simulator (start_typing ops content g)) = true
    /\ _stop_event (simulator (start_typing ops content g)) = false
    /\ controls_enabled (start_typing ops content g) = false
    /\ stop_button_enabled (start_typing ops content g) = true
    /\ panic_window (start_typing ops content g) = true
    /\ dialogs (start_typing ops content g) = dialogs g.
Proof.
  intros Htext Hidle.
  destruct (rstrip_by_tail (Ascii.eqb newline) content) as (tail & Hc & Ht).
  exists (rstrip_newlines content), tail.
  split; [exact Hc |]. split; [exact Ht |]. split.
  - intros H. apply rstrip_by_end in H. now rewrite Ascii.eqb_refl in H.
  - unfold start_typing. rewrite Htext. simpl. unfold start.
    rewrite Hidle. simpl. repeat split.
Qed.

Lemma type_starts_on_the_text_witness :
  truthy (strip ascii_ops (rstrip_newlines ("go" ++ nl ++ nl)%string)) = true
  /\ running (simulator fresh_gui) = false
  /\ started (simulator (start_typing ascii_ops ("go" ++ nl ++ nl)%string
                           fresh_gui)) = ["go"].
Proof.
  split; [reflexivity |]. split; [reflexivity |].
  destruct (type_starts_on_the_text ascii_ops ("go" ++ nl ++ nl)%string
              fresh_gui) as (t & tail & _); reflexivity.
Defined.

(* ================================================================== *)
(** ** What a stop changes *)

Lemma cut_short_refl note {A} (m : M A) : cut_short note m m.
Proof. intros c. destruct (m c) as [[r c1] t1]. auto. Qed.

Lemma cut_short_bind note {A B} (m1 m2 : M A) (k1 k2 : A -> M B) :
  cut_short note m1 m2 -> (forall a, cut_short note (k1 a) (k2 a)) ->
  cut_short note (bind m1 k1) (bind m2 k2).
Proof.
  intros Hm Hk c. specialize (Hm c). unfold bind.
  destruct (m1 c) as [[r1 c1] t1], (m2 c) as [[r2 c2] t2].
  destruct Hm as [(<- & <- & <-) | (-> & done & rest & -> & ->)].
  - destruct r1 as [a| |]; auto.
    specialize (Hk a c1).
    destruct (k1 a c1) as [[r1' c1'] t1'], (k2 a c1) as [[r2' c2'] t2'].
    destruct Hk as [(<- & <- & <-) | (-> & done & rest & -> & ->)]; auto.
    right. split; trivial. exists (t1 ++ done), rest.
    now rewrite !app_assoc.
  - destruct r2 as [a| |].
    + destruct (k2 a c2) as [[r2' c2'] t2'].
      right. split; trivial.
      exists done, (rest ++ t2'). now rewrite app_assoc.
    + right. split; trivial. now exists done, rest.
    + right. split; trivial. now exists done, rest.
Qed.

Lemma cut_short_for_chars note (b1 b2 : ascii -> M unit) word :
  (forall ch, cut_short note (b1 ch) (b2 ch)) ->
  cut_short note (for_chars b1 word) (for_chars b2 word).
Proof.
  intros Hb. induction word as [|ch rest IH]; simpl.
  - apply cut_short_refl.
  - apply cut_short_bind; auto.
Qed.

Lemma cut_short_for_enum note {A} (b1 b2 : nat -> A -> M unit) l :
  (forall i x, cut_short note (b1 i x) (b2 i x)) ->
  forall i, cut_short note (for_enum b1 i l) (for_enum b2 i l).
Proof.
  intros Hb. induction l as [|x rest IH]; intros i; simpl.
  - apply cut_short_refl.
  - apply cut_short_bind; auto.
Qed.

Section Stopped.

Variable ops : StrOps.
Variable self : GlobalTypingSimulator.
Variable w : World.

Lemma cut_short_check_stop :
  cut_short (Finished (stop_callback self))
    (check_stop self w) (check_stop self (unstopped w)).
Proof.
  intros c. unfold check_stop, bind, poll_stop, _on_finished, py_return,
    emit, ret. simpl.
  destruct (is_set w (polls c)); simpl; auto.
  right. split; trivial. now exists [], [].
Qed.

Ltac cut_step :=
  match goal with
  | |- cut_short _ (check_stop _ _) (check_stop _ _) =>
      apply cut_short_check_stop
  | |- cut_short _ (bind _ _) (bind _ _) => apply cut_short_bind; [| intros ?]
  | |- cut_short _ (if ?b then _ else _) (if ?b then _ else _) => destruct b
  | |- cut_short _ (for_chars _ _) (for_chars _ _) =>
      apply cut_short_for_chars; intros ?
  | |- cut_short _ (for_enum _ _ _) (for_enum _ _ _) =>
      apply cut_short_for_enum; intros ? ?
  | |- cut_short _ _ _ => apply cut_short_refl
  end.

Lemma cut_short_run_body full_text :
  cut_short (Finished (stop_callback self))
    (run_body ops self w full_text)
    (run_body ops self (unstopped w) full_text).
Proof.
  unfold run_body, tick, do_line, end_of_line, type_line, do_word, inter_word,
    type_one.
  repeat cut_step.
Qed.

End Stopped.

(** A stop only cuts the run short: a run either goes exactly as it would
    have gone had the stop flag never been set, or it is cancelled, and
    then what it did before calling [_on_finished] is the beginning of
    what that run does: the same keys, sleeps and statuses in the same
    order. *)
Theorem stop_only_cuts_short (ops : StrOps) (self : GlobalTypingSimulator)
  (w : World) (full_text : string) :
  _run ops self w full_text = _run ops self (unstopped w) full_text
  \/ (fst (_run ops self w full_text) = Cancelled
      /\ exists done rest,
           snd (_run ops self w full_text)
           = done ++ [Finished (stop_callback self)]
           /\ snd (_run ops self (unstopped w) full_text) = done ++ rest).
Proof.
  pose proof (cut_short_run_body ops self w full_text start_counters) as H.
  unfold _run.
  destruct (run_body ops self w full_text start_counters) as [[r1 c1] t1].
  destruct (run_body ops self (unstopped w) full_text start_counters)
    as [[r2 c2] t2].
  destruct H as [(<- & <- & <-) | (-> & done & rest & -> & ->)].
  - now left.
  - right. split; trivial. exists done. destruct r2; now exists rest.
Qed.

(* ================================================================== *)
(** ** The last status *)

Lemma each_not_done_typing_part ops self w full_text :
  each not_done (typing_part ops self w full_text).
Proof.
  unfold typing_part, tick, do_line, end_of_line, type_line, do_word,
    word_char_delay, inter_word, type_one, _choose_typo_char, check_stop,
    uniform.
  repeat each_step.
Qed.

Lemma not_done_statuses t :
  Forall not_done t -> ~ In "Done!" (statuses t).
Proof.
  induction 1 as [|e t He _ IH]; simpl; [tauto |].
  destruct e as [msg|b|p d|k b]; trivial.
  simpl. intros [Heq | Hin]; [| now apply IH].
  subst msg. vm_compute in He. discriminate He.
Qed.

(** ["Done!"] is announced exactly when the run completes: it is the last
    status of a completed run, and a run that is cancelled, or aborted by
    a key that raises, never shows it. *)
Theorem done_only_on_completion (ops : StrOps) (self : GlobalTypingSimulator)
  (w : World) (full_text : string) :
  (In "Done!" (statuses (snd (_run ops self w full_text)))
   <-> fst (_run ops self w full_text) = Completed)
  /\ (fst (_run ops self w full_text) = Completed ->
      last (statuses (snd (_run ops self w full_text))) "" = "Done!").
Proof.
  unfold _run. rewrite run_body_split.
  pose proof (each_not_done_typing_part ops self w full_text start_counters)
    as H.
  unfold bind. destruct (typing_part ops self w full_text start_counters)
    as [[[[]| |] c1] t1]; cbn [fst snd] in *.
  - unfold _schedule_status, _on_finished, emit. cbn [fst snd].
    rewrite statuses_app. simpl. split.
    + split; trivial. intros _. apply in_or_app. right. now left.
    + intros _. apply last_last.
  - split; [| discriminate]. split; [| discriminate].
    intros Hin. exfalso. exact (not_done_statuses t1 H Hin).
  - split; [| discriminate]. split; [| discriminate].
    intros Hin. exfalso. exact (not_done_statuses t1 H Hin).
Qed.
